(** * bestbets-loader: a shallow embedding of the category-to-match
    transformer and the Elasticsearch best bets loader.

    Sources embedded here:
    - src/lib/transformers/category-to-match-transformer.js
      (transform, extractMatchFromSyn, extractNamesToTokenize,
       tokenizeNames, tokenizeNameWrap, ValidateConfig, GetInstance);
    - the ElasticBestbetsLoader class (constructor, begin, loadRecord, end,
      ValidateConfig, GetInstance) as it appears in src/lib/loaders/__tests__/.

    JavaScript objects used as dictionaries (tokenCache, fetchQueue, the
    lookup table of tokenizeNames) are stdpp gmaps keyed by strings; a
    missing key reads as [None], which stands for [undefined]. *)

From stdpp Require Import base gmap strings list pretty.
From Stdlib Require Import Ascii ZArith Lia.

Local Open Scope list_scope.

(* ===================================================================== *)
(** ** JavaScript values and truthiness                                    *)
(* ===================================================================== *)

Module JS.

(** The JavaScript values a configuration field can hold.  Numbers are
    integers or NaN; arrays and objects are only inspected for their
    truthiness and their [typeof]. *)
Inductive jsval :=
| JUndef
| JNull
| JBool (b : bool)
| JNum (z : Z)
| JNaN
| JStr (s : string)
| JArr
| JObj.

(** [!!v] *)
Definition truthy (v : jsval) : bool :=
  match v with
  | JUndef | JNull | JNaN => false
  | JBool b => b
  | JNum z => negb (Z.eqb z 0)
  | JStr s => negb (String.eqb s ""%string)
  | JArr | JObj => true
  end.

(** [typeof v === 'string'] *)
Definition is_string (v : jsval) : bool :=
  match v with JStr _ => true | _ => false end.

(** [typeof v === 'number'] *)
Definition is_number (v : jsval) : bool :=
  match v with JNum _ | JNaN => true | _ => false end.

(** [v <= 0] for a number [v] (false on NaN). *)
Definition num_le_0 (v : jsval) : bool :=
  match v with JNum z => Z.leb z 0 | _ => false end.

(** [String.prototype.toLowerCase], on the ASCII range. *)
Definition lower_ascii (c : ascii) : ascii :=
  let n := nat_of_ascii c in
  if (Nat.leb 65 n && Nat.leb n 90)%bool then ascii_of_nat (n + 32) else c.

Fixpoint toLowerCase (s : string) : string :=
  match s with
  | EmptyString => EmptyString
  | String c s' => String (lower_ascii c) (toLowerCase s')
  end.

(** A JavaScript call that returns [a] or throws an [Error] whose message
    is [msg]. *)
Inductive result (A : Type) :=
| Ok (a : A)
| Err (msg : string).
Arguments Ok {A} a.
Arguments Err {A} msg.

End JS.

Import JS.

(* ===================================================================== *)
(** ** The category-to-match transformer: transform                        *)
(* ===================================================================== *)

Module Transformer.

(** A best bets synonym: [{name, isExactMatch}]. *)
Record Synonym := mkSynonym {
  syn_name : string;
  syn_isExactMatch : bool
}.

(** The category object [data] handed to [transform]. *)
Record Category := mkCategory {
  categoryID : string;
  categoryName : string;
  cat_isExactMatch : bool;
  cat_language : string;
  cat_categoryDisplay : option string;
  includeSynonyms : list Synonym;
  excludeSynonyms : list Synonym
}.

(** A match object built by [transform].  [tokenCount] is [None] when
    [lookup[name]] is [undefined]; [categoryDisplay] is [None] when the
    object has no such property or it is [undefined]. *)
Record Match := mkMatch {
  m_category : string;
  m_contentID : string;
  m_synonym : string;
  m_language : string;
  m_isNegated : bool;
  m_isExact : bool;
  m_tokenCount : option nat;
  m_categoryDisplay : option string
}.

(** [extractMatchFromSyn(cat, isNeg, syn)]; the [tokenCount: 0] it sets is
    overwritten by [transform], which passes the count in. *)
Definition extractMatchFromSyn (cat : Category) (isNeg : bool) (syn : Synonym)
    (tokenCount : option nat) : Match :=
  {| m_category := categoryName cat;
     m_contentID := categoryID cat;
     m_synonym := syn_name syn;
     m_language := cat_language cat;
     m_isNegated := isNeg;
     m_isExact := syn_isExactMatch syn;
     m_tokenCount := tokenCount;
     m_categoryDisplay := None |}.

(** The reducer of [extractNamesToTokenize]: append [curr] unless some
    element of [ac] is equal to it after [toLowerCase]. *)
Definition dedupStep (ac : list string) (curr : string) : list string :=
  if existsb (fun el => String.eqb (toLowerCase el) (toLowerCase curr)) ac
  then ac else ac ++ [curr].

(** [extractNamesToTokenize(cat)] *)
Definition extractNamesToTokenize (cat : Category) : list string :=
  fold_left dedupStep
    (categoryName cat :: map syn_name (includeSynonyms cat)
                      ++ map syn_name (excludeSynonyms cat)) [].

(** [tokenizeNames(nameArr)] once every [tokenizeNameWrap(name)] has
    resolved to [count name]: the reduce that builds the lookup object
    [{[name]: count}]. *)
Definition tokenizeNames (count : string -> nat) (nameArr : list string)
    : gmap string nat :=
  fold_left (fun ac name => <[name := count name]> ac) nameArr ∅.

(** [transform(data)], where [count] is what [tokenizeNameWrap] resolved
    each name to. *)
Definition transform (count : string -> nat) (data : Category) : list Match :=
  let namesToTokenize := extractNamesToTokenize data in
  let lookup := tokenizeNames count namesToTokenize in
  let incMatches := map (fun syn => extractMatchFromSyn data false syn
                                      (lookup !! syn_name syn))
                        (includeSynonyms data) in
  let exMatches := map (fun syn => extractMatchFromSyn data true syn
                                     (lookup !! syn_name syn))
                       (excludeSynonyms data) in
  let catMatch := {| m_category := categoryName data;
                     m_contentID := categoryID data;
                     m_synonym := categoryName data;
                     m_language := cat_language data;
                     m_isNegated := false;
                     m_isExact := cat_isExactMatch data;
                     m_tokenCount := lookup !! categoryName data;
                     m_categoryDisplay := cat_categoryDisplay data |} in
  catMatch :: incMatches ++ exMatches.

End Transformer.

(* ===================================================================== *)
(** ** tokenizeNameWrap: the per-instance token cache under interleaving   *)
(* ===================================================================== *)

Module Tokenizer.

(** The mutable fields of one transformer instance that
    [tokenizeNameWrap] touches, plus the log of the [indices.analyze]
    requests issued by [tokenizeName] (with the original casing). *)
Record TState := mkTState {
  tokenCache : gmap string nat;
  fetchQueue : gmap string bool;
  calls : list string
}.

(** [this.tokenCache = {}; this.fetchQueue = {}] in the constructor. *)
Definition fresh : TState := mkTState ∅ ∅ [].

(** One pending invocation of [tokenizeNameWrap(name)], by the point at
    which it is suspended. *)
Inductive Task :=
| TCall (name : string)           (** called, body not yet run *)
| TSleep (name : string)          (** at [await timeout(100)] *)
| TAwait (name : string)          (** at [await this.tokenizeName(name)] *)
| TDone (name : string) (n : nat) (** resolved with [n] *)
| TFail (name : string) (err : string). (** rejected with [err] *)

(** How the upstream [indices.analyze] request answers: the number of
    tokens, or an error that [tokenizeName] logs and rethrows. *)
Inductive Resp :=
| ROk (n : nat)
| RErr (err : string).

(** [this.tokenCache[key]] when it is truthy ([undefined] and [0] are
    not). *)
Definition cached (st : TState) (key : string) : option nat :=
  match tokenCache st !! key with
  | Some v => if Nat.eqb v 0 then None else Some v
  | None => None
  end.

(** [this.fetchQueue[key]] is truthy. *)
Definition queued (st : TState) (key : string) : bool :=
  match fetchQueue st !! key with Some true => true | _ => false end.

(** The synchronous part of [tokenizeNameWrap(name)], up to its first
    [await]: a cache hit returns, a name being fetched goes to sleep,
    otherwise the name is flagged in [fetchQueue] and fetched. *)
Definition wrap_entry (st : TState) (name : string) : TState * Task :=
  let key := toLowerCase name in
  match cached st key with
  | Some v => (st, TDone name v)
  | None =>
      if queued st key then (st, TSleep name)
      else (mkTState (tokenCache st) (<[key := true]> (fetchQueue st))
                     (calls st ++ [name]), TAwait name)
  end.

(** The continuation after [await this.tokenizeName(name)]: on success
    the count is stored and the flag cleared; on failure the exception
    leaves the function before either assignment runs. *)
Definition wrap_resume (st : TState) (name : string) (r : Resp) : TState * Task :=
  let key := toLowerCase name in
  match r with
  | ROk n => (mkTState (<[key := n]> (tokenCache st))
                       (<[key := false]> (fetchQueue st)) (calls st), TDone name n)
  | RErr e => (st, TFail name e)
  end.

Definition Config : Type := TState * list Task.

(** The event loop: a new call may arrive at any time, and any suspended
    task may be resumed (its timer fires, or its analyze request answers
    with any response). *)
Inductive step : Config -> Config -> Prop :=
| step_call st ts name :
    step (st, ts) (st, ts ++ [TCall name])
| step_start st ts i name st' t' :
    ts !! i = Some (TCall name) -> wrap_entry st name = (st', t') ->
    step (st, ts) (st', <[i := t']> ts)
| step_wake st ts i name st' t' :
    ts !! i = Some (TSleep name) -> wrap_entry st name = (st', t') ->
    step (st, ts) (st', <[i := t']> ts)
| step_resp st ts i name r st' t' :
    ts !! i = Some (TAwait name) -> wrap_resume st name r = (st', t') ->
    step (st, ts) (st', <[i := t']> ts).

Definition steps : Config -> Config -> Prop := rtc step.

(** A schedule of the event loop, to run concrete interleavings. *)
Inductive Action :=
| ACall (name : string)
| AStart (i : nat)
| AWake (i : nat)
| AResp (i : nat) (r : Resp).

Definition exec (c : Config) (a : Action) : option Config :=
  let '(st, ts) := c in
  match a with
  | ACall name => Some (st, ts ++ [TCall name])
  | AStart i =>
      match ts !! i with
      | Some (TCall name) => let '(st', t') := wrap_entry st name in
                             Some (st', <[i := t']> ts)
      | _ => None
      end
  | AWake i =>
      match ts !! i with
      | Some (TSleep name) => let '(st', t') := wrap_entry st name in
                              Some (st', <[i := t']> ts)
      | _ => None
      end
  | AResp i r =>
      match ts !! i with
      | Some (TAwait name) => let '(st', t') := wrap_resume st name r in
                              Some (st', <[i := t']> ts)
      | _ => None
      end
  end.

Fixpoint run (c : Config) (acts : list Action) : option Config :=
  match acts with
  | [] => Some c
  | a :: acts' => match exec c a with
                  | Some c' => run c' acts'
                  | None => None
                  end
  end.

(** Counting the tasks of a configuration by a weight. *)
Fixpoint tcount (w : Task -> nat) (ts : list Task) : nat :=
  match ts with
  | [] => 0
  | t :: ts' => w t + tcount w ts'
  end.

Definition key_is (k name : string) : nat :=
  if String.eqb (toLowerCase name) k then 1 else 0.

(** Analyze requests in flight for the normalized key [k]. *)
Definition awaits (k : string) (t : Task) : nat :=
  match t with TAwait name => key_is k name | _ => 0 end.

(** Tasks for [k] that have settled (resolved or rejected). *)
Definition settled (k : string) (t : Task) : nat :=
  match t with TDone name _ | TFail name _ => key_is k name | _ => 0 end.

Definition outstanding (k : string) (ts : list Task) : nat := tcount (awaits k) ts.

(** Upstream analyze requests issued so far for the key [k]. *)
Definition calls_for (k : string) (st : TState) : nat :=
  length (filter (fun name => toLowerCase name = k) (calls st)).

(** The single-flight invariant: per normalized key at most one analyze
    request is in flight, and none while the key is not flagged. *)
Definition single_flight (c : Config) : Prop :=
  forall k, outstanding k (snd c) <= 1 /\
            (queued (fst c) k = false -> outstanding k (snd c) = 0).

(** A key whose fetch failed: still flagged in [fetchQueue], nothing
    truthy cached, no request in flight. *)
Definition stuck (k : string) (c : Config) : Prop :=
  queued (fst c) k = true /\ cached (fst c) k = None /\ outstanding k (snd c) = 0.

(** Two concurrent calls differing in case. *)
Definition case_schedule (a b : string) (r : Resp) : list Action :=
  [ACall a; ACall b; AStart 0; AStart 1; AResp 0 r; AWake 1].

(** A call, its answer, then a second call with other casing. *)
Definition sequential_schedule (r : Resp) : list Action :=
  [ACall "The"; AStart 0; AResp 0 r; ACall "THE"; AStart 1].

(** A failing fetch with a concurrent waiter, then a later call. *)
Definition failure_schedule : list Action :=
  [ACall "Test"; ACall "TEST"; AStart 0; AStart 1; AResp 0 (RErr "socket hang up");
   AWake 1; ACall "test"; AStart 2].

End Tokenizer.

(* ===================================================================== *)
(** ** ElasticBestbetsLoader: loadRecord and end                           *)
(* ===================================================================== *)

Module Loader.

(** A [BestbetMatch] as [loadRecord] reads it.  [isCategory] is the
    truthiness of the property ([false] when it is absent). *)
Record BestbetMatch := mkBestbetMatch {
  isCategory : bool;
  category : string;
  contentID : string;
  weight : option nat;
  synonym : string;
  language : string;
  isNegated : bool;
  isExact : bool;
  tokenCount : option nat;
  categoryDisplay : option string
}.

(** The document written to the [categorydisplay] type. *)
Record DisplayDoc := mkDisplayDoc {
  d_contentid : string;
  d_name : string;
  d_weight : option nat;
  d_content : option string
}.

(** The document written to the [synonyms] type. *)
Record SynonymDoc := mkSynonymDoc {
  s_category : string;
  s_contentid : string;
  s_synonym : string;
  s_language : string;
  s_is_negated : bool;
  s_is_exact : bool;
  s_tokencount : option nat
}.

(** What [estools.indexDocumentBulk] resolves to. *)
Record BulkResult := mkBulkResult {
  updated : list string;
  errors : list string
}.

(** The two writes [loadRecord] can issue. *)
Inductive Write :=
| IndexDocumentBulk (indexName type : string) (docs : list (string * SynonymDoc))
| IndexDocument (indexName type id : string) (doc : DisplayDoc).

(** How the search engine answers the two writes. *)
Record WriteEnv := mkWriteEnv {
  bulk_answer : list (string * SynonymDoc) -> result BulkResult;
  doc_answer : DisplayDoc -> result unit
}.

(** The [filter(match => match.isCategory).map(...).shift()] of
    [loadRecord]. *)
Definition findCategoryDisplay (matches : list BestbetMatch) : option DisplayDoc :=
  head (map (fun cat => mkDisplayDoc (contentID cat) (category cat) (weight cat)
                                     (categoryDisplay cat))
            (filter (fun m => isCategory m = true) matches)).

Definition toSynonymDoc (curr : BestbetMatch) : SynonymDoc :=
  mkSynonymDoc (category curr) (contentID curr) (synonym curr) (language curr)
               (isNegated curr) (isExact curr) (tokenCount curr).

(** The reduce that builds [docArr]: [[`${contentID}_${ci}`, doc]]. *)
Definition docArr (matches : list BestbetMatch) : list (string * SynonymDoc) :=
  imap (fun ci curr =>
          (contentID curr +:+ "_" +:+ pretty (N.of_nat ci), toSynonymDoc curr))
       matches.

(** [loadRecord(matches)]: the writes it issues and how it ends.  When
    both writes reject, [Promise.all] rejects with the first rejection in
    time; the bulk write's is taken here. *)
Definition loadRecord (env : WriteEnv) (indexName : string)
    (matches : list BestbetMatch) : list Write * result unit :=
  match matches with
  | [] => ([], Err "A category resulted in 0 matches")
  | m0 :: _ =>
      match findCategoryDisplay matches with
      | None => ([], Err ("Category " +:+ contentID m0 +:+ " is missing its display"))
      | Some cd =>
          let docs := docArr matches in
          let ws := [IndexDocumentBulk indexName "synonyms" docs;
                     IndexDocument indexName "categorydisplay" (d_contentid cd) cd] in
          match bulk_answer env docs, doc_answer env cd with
          | Err e, _ => (ws, Err e)
          | Ok _, Err e => (ws, Err e)
          | Ok res, Ok _ =>
              if negb (length (updated res) =? 0)
              then (ws, Err ("Category " +:+ contentID m0 +:+ " appears to have duplicates"))
              else if negb (length (errors res) =? 0)
              then (ws, Err ("Category " +:+ contentID m0 +:+ " appears had document errors"))
              else (ws, Ok tt)
          end
      end
  end.

(** The [estools] calls made by [end()]. *)
Inductive EsOp :=
| OptimizeIndex (indexName : string)
| SetAliasToSingleIndex (aliasName indexName : string)
| CleanupOldIndices (aliasName : string) (daysToKeep minIndexesToKeep : nat).

(** The search engine as [end()] sees it: where [aliases] sends each
    alias, the [estools] calls made so far, and the logger's error lines. *)
Record LState := mkLState {
  aliases : gmap string string;
  ops : list EsOp;
  logs : list string
}.

(** A state and error monad for the loader's async methods. *)
Definition M (A : Type) : Type := LState -> result A * LState.

Definition ret {A} (a : A) : M A := fun s => (Ok a, s).
Definition throw {A} (msg : string) : M A := fun s => (Err msg, s).
Definition bind {A B} (m : M A) (k : A -> M B) : M B :=
  fun s => match m s with
           | (Ok a, s') => k a s'
           | (Err e, s') => (Err e, s')
           end.
Definition catch {A} (m : M A) (h : string -> M A) : M A :=
  fun s => match m s with
           | (Err e, s') => h e s'
           | r => r
           end.

Notation "x <- m ;; k" := (bind m (fun x => k)) (at level 100, m at next level, right associativity).
Notation "m ;;; k" := (bind m (fun _ => k)) (at level 100, right associativity).

Definition logError (msg : string) : M unit :=
  fun s => (Ok tt, mkLState (aliases s) (ops s) (logs s ++ [msg])).

(** Apply a successful [estools] call to the engine. *)
Definition apply_op (op : EsOp) (al : gmap string string) : gmap string string :=
  match op with
  | SetAliasToSingleIndex a i => <[a := i]> al
  | _ => al
  end.

(** Issue an [estools] call; [answer op] is [Some err] when it rejects
    (the alias swap is atomic: a rejected swap changes nothing). *)
Definition esCall (answer : EsOp -> option string) (op : EsOp) : M unit :=
  fun s =>
    let s' := mkLState (aliases s) (ops s ++ [op]) (logs s) in
    match answer op with
    | None => (Ok tt, mkLState (apply_op op (aliases s')) (ops s') (logs s'))
    | Some err => (Err err, s')
    end.

(** The loader instance fields [end()] reads. *)
Record LoaderInst := mkLoaderInst {
  aliasName : string;
  indexName : string;
  daysToKeep : nat;
  minIndexesToKeep : nat
}.

(** [end()] *)
Definition end_ (answer : EsOp -> option string) (l : LoaderInst) : M unit :=
  catch
    (esCall answer (OptimizeIndex (indexName l)) ;;;
     esCall answer (SetAliasToSingleIndex (aliasName l) (indexName l)) ;;;
     catch (esCall answer (CleanupOldIndices (aliasName l) (daysToKeep l)
                                             (minIndexesToKeep l)))
           (fun err => logError "Could not cleanup old indices" ;;; throw err))
    (fun err => logError "Errors occurred during end process" ;;; throw err).

End Loader.

(* ===================================================================== *)
(** ** Configuration: ValidateConfig and GetInstance of both components    *)
(* ===================================================================== *)

Module Configuration.

(** The step configuration object, field by field. *)
Record ConfigObj := mkConfig {
  eshosts : jsval;
  settingsPath : jsval;
  mappingPath : jsval;
  analyzer : jsval;
  socketLimit : jsval;
  aliasName : jsval;
  daysToKeep : jsval;
  minIndexesToKeep : jsval
}.

(** What [GetInstance] can see of the file system: [join p] is
    [path.join(appRoot, p)], and [require full] is [None] when
    [require(full)] throws, otherwise the names of the analyzers for
    which [settings.settings.analysis.analyzer[name]] is truthy. *)
Record FsEnv := mkFsEnv {
  join : string -> string;
  require : string -> option (list string)
}.

(** [!v || typeof v !== 'string'] *)
Definition bad_string (v : jsval) : bool := negb (truthy v) || negb (is_string v).

(** [v && (typeof v !== 'number' || v <= 0)] *)
Definition bad_socket (v : jsval) : bool :=
  truthy v && (negb (is_number v) || num_le_0 v).

(** The string inside a field that passed [bad_string]. *)
Definition str_of (v : jsval) : string :=
  match v with JStr s => s | _ => "" end.

(** [errors.push(new Error(msg))] when [b] holds. *)
Definition check (b : bool) (msg : string) : list string :=
  if b then [msg] else [].

End Configuration.

Import Configuration.

Module TransformerConfig.

(** [CategoryToMatchTransformer.ValidateConfig(config)] *)
Definition ValidateConfig (c : ConfigObj) : list string :=
  check (negb (truthy (eshosts c))) "eshosts is required for the transformer"
  ++ check (bad_string (settingsPath c)) "settingsPath is required for the transformer"
  ++ check (bad_string (analyzer c))
       "You must supply the name of analyzer defined in the settings"
  ++ check (bad_socket (socketLimit c)) "socketLimit must be a number greater than 0".

(** [CategoryToMatchTransformer.GetInstance(logger, config)]; building the
    client and the instance does not throw. *)
Definition GetInstance (env : FsEnv) (c : ConfigObj) : result unit :=
  if negb (truthy (eshosts c)) then Err "eshosts is required for the elastic loader"
  else if bad_socket (socketLimit c) then Err "socketLimit must be a number greater than 0"
  else if bad_string (settingsPath c) then Err "settingsPath is required for the elastic loader"
  else
    let settingsFullPath := join env (str_of (settingsPath c)) in
    match require env settingsFullPath with
    | None => Err ("settingsPath cannot be loaded: " +:+ settingsFullPath)
    | Some analyzers =>
        if bad_string (analyzer c)
        then Err "You must supply the name of analyzer defined in the settings"
        else if bool_decide (str_of (analyzer c) ∈ analyzers) then Ok tt
        else Err "Could not find analyzer in settings"
    end.

End TransformerConfig.

Module LoaderConfig.

(** [ElasticBestbetsLoader.ValidateConfig(config)] *)
Definition ValidateConfig (c : ConfigObj) : list string :=
  check (bad_string (mappingPath c)) "mappingPath is required for the elastic loader"
  ++ check (bad_string (settingsPath c)) "settingsPath is required for the elastic loader"
  ++ check (negb (truthy (eshosts c))) "eshosts is required for the elastic loader"
  ++ check (bad_socket (socketLimit c)) "socketLimit must be a number greater than 0".

(** A destructured constructor option: the default replaces [undefined]. *)
Definition with_default (v d : jsval) : jsval :=
  match v with JUndef => d | _ => v end.

(** [new ElasticBestbetsLoader(logger, estools, mappings, settings, {...})]:
    the checks of the constructor. *)
Definition construct (c : ConfigObj) : result unit :=
  let aliasName := with_default (aliasName c) (JBool false) in
  let daysToKeep := with_default (daysToKeep c) (JNum 10) in
  let minIndexesToKeep := with_default (minIndexesToKeep c) (JNum 2) in
  if bad_string aliasName then Err "aliasName is required for the elastic loader"
  else if negb (truthy daysToKeep) || negb (is_number daysToKeep)
  then Err "daysToKeep is required for the elastic loader"
  else if negb (truthy minIndexesToKeep) || negb (is_number minIndexesToKeep)
  then Err "minIndexesToKeep is required for the elastic loader"
  else Ok tt.

(** [ElasticBestbetsLoader.GetInstance(logger, config)] *)
Definition GetInstance (env : FsEnv) (c : ConfigObj) : result unit :=
  if bad_string (mappingPath c) then Err "mappingPath is required for the elastic loader"
  else
    let mapFullPath := join env (str_of (mappingPath c)) in
    match require env mapFullPath with
    | None => Err ("mappingPath cannot be loaded: " +:+ mapFullPath)
    | Some _ =>
        if bad_string (settingsPath c) then Err "settingsPath is required for the elastic loader"
        else
          let settingsFullPath := join env (str_of (settingsPath c)) in
          match require env settingsFullPath with
          | None => Err ("settingsPath cannot be loaded: " +:+ settingsFullPath)
          | Some _ =>
              if negb (truthy (eshosts c)) then Err "eshosts is required for the elastic loader"
              else if bad_socket (socketLimit c)
              then Err "socketLimit must be a number greater than 0"
              else construct c
          end
    end.

End LoaderConfig.

Module ConfigFields.

(** The fields the two [ValidateConfig]s check. *)
Inductive Field := FHosts | FSettings | FMapping | FAnalyzer | FSocket.

#[global] Instance Field_eq_dec : EqDecision Field.
Proof. solve_decision. Defined.

(** Make one field invalid: the required ones are omitted ([undefined]),
    [socketLimit] is given a negative number. *)
Definition invalidate (f : Field) (c : ConfigObj) : ConfigObj :=
  let 'mkConfig h s m a sl al d mi := c in
  match f with
  | FHosts => mkConfig JUndef s m a sl al d mi
  | FSettings => mkConfig h JUndef m a sl al d mi
  | FMapping => mkConfig h s JUndef a sl al d mi
  | FAnalyzer => mkConfig h s m JUndef sl al d mi
  | FSocket => mkConfig h s m a (JNum (-1)) al d mi
  end.

Definition invalidate_all (fs : list Field) (c : ConfigObj) : ConfigObj :=
  fold_right invalidate c fs.

Definition nonempty_string (v : jsval) : bool :=
  match v with JStr s => negb (String.eqb s "") | _ => false end.

Definition socket_ok (v : jsval) : bool :=
  match v with JUndef => true | JNum z => Z.ltb 0 z | _ => false end.

(** A fully valid configuration: hosts given, the three names non-empty
    strings, [socketLimit] absent or a positive number. *)
Definition fully_valid (c : ConfigObj) : bool :=
  truthy (eshosts c) && nonempty_string (settingsPath c)
  && nonempty_string (mappingPath c) && nonempty_string (analyzer c)
  && socket_ok (socketLimit c).

(** The order in which each [ValidateConfig] checks its fields. *)
Definition transformer_order : list Field := [FHosts; FSettings; FAnalyzer; FSocket].
Definition loader_order : list Field := [FMapping; FSettings; FHosts; FSocket].

Definition transformer_msg (f : Field) : string :=
  match f with
  | FHosts => "eshosts is required for the transformer"
  | FSettings => "settingsPath is required for the transformer"
  | FAnalyzer => "You must supply the name of analyzer defined in the settings"
  | FSocket => "socketLimit must be a number greater than 0"
  | FMapping => ""
  end.

Definition loader_msg (f : Field) : string :=
  match f with
  | FMapping => "mappingPath is required for the elastic loader"
  | FSettings => "settingsPath is required for the elastic loader"
  | FHosts => "eshosts is required for the elastic loader"
  | FSocket => "socketLimit must be a number greater than 0"
  | FAnalyzer => ""
  end.

(** The errors of the invalid fields [fs], in the order [order]. *)
Definition errors_in (order : list Field) (msg : Field -> string) (fs : list Field)
    : list string :=
  map msg (filter (fun f => f ∈ fs) order).

(** The field order the specification states for both components:
    hosts, settings path, mapping path, analyzer name, socket limit. *)
Definition declared_order : list Field :=
  [FHosts; FSettings; FMapping; FAnalyzer; FSocket].

(** [errors_in] along [declared_order], restricted to the fields the
    component checks. *)
Definition declared_errors (checked : list Field) (msg : Field -> string)
    (fs : list Field) : list string :=
  errors_in (filter (fun f => f ∈ checked) declared_order) msg fs.

End ConfigFields.

(* ===================================================================== *)
(** ** The rest of the two components                                      *)
(* ===================================================================== *)

Module Pipeline.

Import Transformer Loader.

(** A match object built by [transform], as [loadRecord] reads it: the
    object has no [isCategory] and no [weight] property, so both read as
    [undefined]. *)
Definition toBestbetMatch (m : Match) : BestbetMatch :=
  mkBestbetMatch false (m_category m) (m_contentID m) None (m_synonym m) (m_language m)
                 (m_isNegated m) (m_isExact m) (m_tokenCount m) (m_categoryDisplay m).

End Pipeline.

Module LoaderBegin.

Import Loader.

(** [`${this.indexName}`]: [this.indexName] is [false] until [begin()]
    assigns it. *)
Definition index_text (indexName : option string) : string :=
  match indexName with None => "false" | Some s => s end.

(** [begin()]: [create aliasName] is what
    [estools.createTimestampedIndex(this.aliasName, this.mappings,
    this.settings)] resolves to.  Returns how the call ends, the new
    [this.indexName] and the logger's error lines; on a rejection the
    assignment never runs and the message reads the old value. *)
Definition begin_ (create : string -> result string) (aliasName : string)
    (indexName : option string) (logs : list string)
    : result unit * option string * list string :=
  match create aliasName with
  | Ok name => (Ok tt, Some name, logs)
  | Err e => (Err e, indexName, logs ++ ["Failed to create index " +:+ index_text indexName])
  end.

End LoaderBegin.

Module Client.

(** [maxSockets: config.socketLimit ? config.socketLimit : 80] in the
    client options built by both [GetInstance]s. *)
Definition maxSockets (socketLimit : jsval) : jsval :=
  if truthy socketLimit then socketLimit else JNum 80.

End Client.

Module TokenizerInv.

Import Tokenizer.

(** No analyze request is in flight for a key that has a truthy cached
    count. *)
Definition cache_quiet (c : Config) : Prop :=
  forall k, cached (fst c) k <> None -> outstanding k (snd c) = 0.

End TokenizerInv.

(* ===================================================================== *)
(** ** Concrete inputs                                                     *)
(* ===================================================================== *)

Module Examples.

Import Transformer.

(** The [DUPES] category of the transformer's tests. *)
Definition DUPES : Category :=
  {| categoryID := "DUPES";
     categoryName := "DUPES";
     cat_isExactMatch := false;
     cat_language := "en";
     cat_categoryDisplay := Some "<div>DUPES</div>";
     includeSynonyms := [mkSynonym "dupes" false; mkSynonym "not dupe" false];
     excludeSynonyms := [mkSynonym "dupes" false; mkSynonym "dupes" false] |}.

(** The analyzer's answer in the tests: one token per word. *)
Fixpoint words (s : string) : nat :=
  match s with
  | EmptyString => 1
  | String c s' => (if Ascii.eqb c " "%char then 1 else 0) + words s'
  end.

(** [GOOD_STEP_CONFIG] of the tests, with the transformer's analyzer. *)
Definition GOOD_STEP_CONFIG : ConfigObj :=
  {| eshosts := JArr;
     settingsPath := JStr "es-mappings/settings.json";
     mappingPath := JStr "es-mappings/mappings.json";
     analyzer := JStr "nostem";
     socketLimit := JUndef;
     aliasName := JStr "bestbets_v1";
     daysToKeep := JNum 10;
     minIndexesToKeep := JUndef |}.

(** A file system where every file loads and the settings define the
    [nostem] analyzer. *)
Definition goodFs : FsEnv :=
  {| join := fun p => "/app/" +:+ p;
     require := fun _ => Some ["nostem"] |}.

(** [GOOD_STEP_CONFIG] naming an analyzer the settings do not define. *)
Definition chickenAnalyzer : ConfigObj :=
  {| eshosts := JArr;
     settingsPath := JStr "es-mappings/settings.json";
     mappingPath := JStr "es-mappings/mappings.json";
     analyzer := JStr "chicken";
     socketLimit := JUndef;
     aliasName := JStr "bestbets_v1";
     daysToKeep := JNum 10;
     minIndexesToKeep := JUndef |}.

(** A match of category 35884 of the tests. *)
Definition tobacco (isCat : bool) (display : option string) : Loader.BestbetMatch :=
  Loader.mkBestbetMatch isCat "Tobacco Control" "35884" None "Tobacco Control" "en"
                        false false (Some 2) display.

(** A search engine that accepts both writes; its bulk answer reports
    [updated] and [errors] ids as given. *)
Definition writesAnswer (upd errs : list string) : Loader.WriteEnv :=
  Loader.mkWriteEnv (fun _ => Ok (Loader.mkBulkResult upd errs)) (fun _ => Ok tt).

(** Optimizing and the alias swap succeed, cleaning up fails. *)
Definition cleanupFails (op : Loader.EsOp) : option string :=
  match op with
  | Loader.CleanupOldIndices _ _ _ => Some "cleanup failed"
  | _ => None
  end.

Definition newLoader : Loader.LoaderInst :=
  Loader.mkLoaderInst "bestbets_v1" "bestbets_v1_20181012" 10 2.

Definition emptyEngine : Loader.LState := Loader.mkLState ∅ [] [].

End Examples.

(* ===================================================================== *)
(** ** Properties of transform                                             *)
(* ===================================================================== *)

Module TransformProofs.

Import Transformer Examples.

Lemma lookup_map_opt {A B} (f : A -> B) (l : list A) (i : nat) :
  map f l !! i = option_map f (l !! i).
Proof. revert i; induction l as [|x l IH]; intros [|i]; simpl; auto. Qed.

(** C1: [transform] returns [1 + m + n] records: first the category's
    own (not negated, its name as synonym text, its exactness, its
    display), then the include synonyms in order (not negated), then the
    exclude synonyms in order (negated). *)
Theorem transform_record_order (count : string -> nat) (data : Category) :
  let out := transform count data in
  length out = 1 + length (includeSynonyms data) + length (excludeSynonyms data) /\
  (exists catM, out !! 0 = Some catM /\ m_isNegated catM = false /\
     m_synonym catM = categoryName data /\ m_isExact catM = cat_isExactMatch data /\
     m_categoryDisplay catM = cat_categoryDisplay data) /\
  (forall i syn, includeSynonyms data !! i = Some syn ->
     exists m, out !! (1 + i) = Some m /\ m_synonym m = syn_name syn /\
               m_isNegated m = false /\ m_isExact m = syn_isExactMatch syn) /\
  (forall j syn, excludeSynonyms data !! j = Some syn ->
     exists m, out !! (1 + length (includeSynonyms data) + j) = Some m /\
               m_synonym m = syn_name syn /\ m_isNegated m = true /\
               m_isExact m = syn_isExactMatch syn).
Proof.
  cbv zeta. unfold transform.
  set (lookup := tokenizeNames count (extractNamesToTokenize data)).
  split; [|split; [|split]].
  - simpl. rewrite length_app, !length_map. lia.
  - eexists; repeat split.
  - intros i syn Hi. simpl.
    assert (Hlt : i < length (includeSynonyms data)) by (eapply lookup_lt_Some; eauto).
    rewrite lookup_app_l by (rewrite length_map; lia).
    rewrite lookup_map_opt, Hi. simpl. eexists; repeat split.
  - intros j syn Hj. simpl.
    rewrite lookup_app_r by (rewrite length_map; lia).
    rewrite length_map, Nat.add_comm, Nat.add_sub, lookup_map_opt, Hj.
    simpl. eexists; repeat split.
Qed.

(** C2 (at the failing input): for the [DUPES] category the names sent to
    the analyzer are ["DUPES"; "not dupe"], but the lookup table is keyed
    by those exact strings, so the three ["dupes"] records get an
    [undefined] token count while the ["DUPES"] record gets a number. *)
Theorem dupes_token_counts (count : string -> nat) :
  extractNamesToTokenize DUPES = ["DUPES"; "not dupe"] /\
  map m_synonym (transform count DUPES) = ["DUPES"; "dupes"; "not dupe"; "dupes"; "dupes"] /\
  map m_tokenCount (transform count DUPES)
    = [Some (count "DUPES"); None; Some (count "not dupe"); None; None].
Proof. split; [reflexivity | split; [reflexivity | vm_compute; reflexivity]]. Qed.

End TransformProofs.

(* ===================================================================== *)
(** ** Properties of tokenizeNameWrap                                      *)
(* ===================================================================== *)

Module TokenizerProofs.

Import Tokenizer.

Lemma tcount_app (w : Task -> nat) (ts : list Task) (t : Task) :
  tcount w (ts ++ [t]) = tcount w ts + w t.
Proof. induction ts as [|t0 ts IH]; simpl; lia. Qed.

Lemma tcount_insert (w : Task -> nat) (ts : list Task) (i : nat) (t t' : Task) :
  ts !! i = Some t -> tcount w (<[i := t']> ts) + w t = tcount w ts + w t'.
Proof.
  revert i; induction ts as [|t0 ts IH]; intros [|i] Hi; simpl in *; try discriminate.
  - injection Hi as ->. lia.
  - specialize (IH i Hi). lia.
Qed.

Lemma tcount_elem (w : Task -> nat) (ts : list Task) (i : nat) (t : Task) :
  ts !! i = Some t -> w t <= tcount w ts.
Proof.
  revert i; induction ts as [|t0 ts IH]; intros [|i] Hi; simpl in *; try discriminate.
  - injection Hi as ->. lia.
  - specialize (IH i Hi). lia.
Qed.

Lemma key_is_eq (k name : string) :
  key_is k name = if decide (toLowerCase name = k) then 1 else 0.
Proof.
  unfold key_is. destruct (String.eqb_spec (toLowerCase name) k);
    destruct (decide (toLowerCase name = k)); congruence.
Qed.

Lemma queued_insert (tc : gmap string nat) (fq : gmap string bool) (cl : list string)
    (key k : string) (b : bool) :
  queued (mkTState tc (<[key := b]> fq) cl) k
  = if decide (key = k) then b else queued (mkTState tc fq cl) k.
Proof. unfold queued; simpl. rewrite lookup_insert. destruct (decide (key = k)); [destruct b|]; auto. Qed.

Lemma cached_insert_ne (tc : gmap string nat) (fq fq' : gmap string bool)
    (cl cl' : list string) (key k : string) (n : nat) :
  key <> k -> cached (mkTState (<[key := n]> tc) fq cl) k = cached (mkTState tc fq' cl') k.
Proof. intros Hne. unfold cached; simpl. rewrite lookup_insert_ne by done. done. Qed.

Lemma run_steps (c c' : Config) (acts : list Action) :
  run c acts = Some c' -> steps c c'.
Proof.
  revert c; induction acts as [|a acts IH]; intros [st ts] Hrun; cbn [run] in Hrun.
  - injection Hrun as <-. apply rtc_refl.
  - destruct (exec (st, ts) a) as [c1|] eqn:He; [|discriminate].
    eapply rtc_l; [|apply IH, Hrun].
    destruct a as [name|i|i|i r]; simpl in He.
    + injection He as <-. apply step_call.
    + destruct (ts !! i) as [[]|] eqn:Hi; try discriminate.
      destruct (wrap_entry st name) as [st' t'] eqn:Hw. injection He as <-.
      eapply step_start; eauto.
    + destruct (ts !! i) as [[]|] eqn:Hi; try discriminate.
      destruct (wrap_entry st name) as [st' t'] eqn:Hw. injection He as <-.
      eapply step_wake; eauto.
    + destruct (ts !! i) as [[]|] eqn:Hi; try discriminate.
      destruct (wrap_resume st name r) as [st' t'] eqn:Hw. injection He as <-.
      eapply step_resp; eauto.
Qed.

(** Entering [tokenizeNameWrap] (first call or after a timeout). *)
Lemma entry_single_flight (st : TState) (ts : list Task) (i : nat) (name : string)
    (t : Task) (st' : TState) (t' : Task) :
  single_flight (st, ts) -> ts !! i = Some t -> (forall k, awaits k t = 0) ->
  wrap_entry st name = (st', t') -> single_flight (st', <[i := t']> ts).
Proof.
  intros Hinv Hi Ht Hw k. simpl.
  pose proof (tcount_insert (awaits k) ts i t t' Hi) as Hc. rewrite Ht in Hc.
  destruct (Hinv k) as [H1 H2]; simpl in H1, H2. unfold outstanding in *.
  unfold wrap_entry in Hw.
  destruct (cached st (toLowerCase name)) as [v|].
  - injection Hw as <- <-. simpl in Hc.
    split; [lia | intros Hq; specialize (H2 Hq); lia].
  - destruct (queued st (toLowerCase name)) eqn:Hq.
    + injection Hw as <- <-. simpl in Hc.
      split; [lia | intros Hq'; specialize (H2 Hq'); lia].
    + injection Hw as <- <-. simpl in Hc. rewrite key_is_eq in Hc.
      destruct st as [tc fq cl]. rewrite queued_insert.
      destruct (decide (toLowerCase name = k)) as [<-|Hne].
      * specialize (H2 Hq). split; [lia | discriminate].
      * split; [lia | intros Hq'; specialize (H2 Hq'); lia].
Qed.

(** Resuming after the analyze request answers. *)
Lemma resume_single_flight (st : TState) (ts : list Task) (i : nat) (name : string)
    (r : Resp) (st' : TState) (t' : Task) :
  single_flight (st, ts) -> ts !! i = Some (TAwait name) ->
  wrap_resume st name r = (st', t') -> single_flight (st', <[i := t']> ts).
Proof.
  intros Hinv Hi Hw k. simpl.
  pose proof (tcount_insert (awaits k) ts i _ t' Hi) as Hc.
  destruct (Hinv k) as [H1 H2]; simpl in H1, H2. unfold outstanding in *.
  unfold wrap_resume in Hw. destruct r as [n|e].
  - injection Hw as <- <-. simpl in Hc. rewrite key_is_eq in Hc.
    destruct st as [tc fq cl]. rewrite queued_insert.
    destruct (decide (toLowerCase name = k)).
    + split; [lia | intros _; lia].
    + split; [lia | intros Hq; specialize (H2 Hq); lia].
  - injection Hw as <- <-. simpl in Hc.
    split; [lia | intros Hq; specialize (H2 Hq); lia].
Qed.

Lemma step_single_flight (c c' : Config) :
  step c c' -> single_flight c -> single_flight c'.
Proof.
  intros Hs Hinv. destruct Hs.
  - intros k. destruct (Hinv k) as [H1 H2]; simpl in *. unfold outstanding in *.
    rewrite tcount_app. simpl. split; [lia | intros Hq; specialize (H2 Hq); lia].
  - eapply entry_single_flight; eauto.
  - eapply entry_single_flight; eauto.
  - eapply resume_single_flight; eauto.
Qed.

Lemma steps_single_flight (c c' : Config) :
  steps c c' -> single_flight c -> single_flight c'.
Proof. induction 1; eauto using step_single_flight. Qed.

(** X17: however callers interleave on a fresh transformer, no normalized key
    ever has two analyze requests in flight. *)
Theorem at_most_one_in_flight (c : Config) (k : string) :
  steps (fresh, []) c -> outstanding k (snd c) <= 1.
Proof.
  intros Hs.
  assert (H0 : single_flight (fresh, [])).
  { intros kk. unfold outstanding; simpl. split; [lia | intros _; reflexivity]. }
  apply (steps_single_flight _ _ Hs H0 k).
Qed.

End TokenizerProofs.

Module TokenizerFailure.

Import Tokenizer TokenizerProofs.

Lemma calls_for_snoc_ne (k name : string) (cl : list string) :
  toLowerCase name <> k ->
  length (filter (fun n => toLowerCase n = k) (cl ++ [name]))
  = length (filter (fun n => toLowerCase n = k) cl).
Proof.
  intros Hne. rewrite filter_app, length_app, filter_cons_False by done.
  simpl. lia.
Qed.

Lemma entry_stuck (k : string) (st : TState) (ts : list Task) (i : nat)
    (name : string) (t : Task) (st' : TState) (t' : Task) :
  ts !! i = Some t -> (forall k', awaits k' t = 0 /\ settled k' t = 0) ->
  wrap_entry st name = (st', t') -> stuck k (st, ts) ->
  stuck k (st', <[i := t']> ts) /\ calls_for k st' = calls_for k st /\
  tcount (settled k) (<[i := t']> ts) = tcount (settled k) ts.
Proof.
  intros Hi Ht Hw (Hq & Hc & Ho). simpl in *.
  destruct (Ht k) as [Ha Hs].
  pose proof (tcount_insert (awaits k) ts i t t' Hi) as Hca.
  pose proof (tcount_insert (settled k) ts i t t' Hi) as Hcs.
  unfold stuck, outstanding in *; simpl.
  unfold wrap_entry in Hw.
  destruct (decide (toLowerCase name = k)) as [<-|Hne].
  - rewrite Hc, Hq in Hw. injection Hw as <- <-. simpl in *.
    repeat split; auto; lia.
  - destruct (cached st (toLowerCase name)) as [v|].
    + injection Hw as <- <-. simpl in *. rewrite key_is_eq, decide_False in Hcs by done.
      repeat split; auto; lia.
    + destruct (queued st (toLowerCase name)).
      * injection Hw as <- <-. simpl in *. repeat split; auto; lia.
      * injection Hw as <- <-. simpl in *.
        rewrite key_is_eq, decide_False in Hca by done.
        destruct st as [tc fq cl]. simpl in *.
        rewrite queued_insert, decide_False by done.
        repeat split; auto; try lia.
        unfold calls_for; simpl. apply calls_for_snoc_ne; done.
Qed.

Lemma resume_stuck (k : string) (st : TState) (ts : list Task) (i : nat)
    (name : string) (r : Resp) (st' : TState) (t' : Task) :
  ts !! i = Some (TAwait name) -> wrap_resume st name r = (st', t') ->
  stuck k (st, ts) ->
  stuck k (st', <[i := t']> ts) /\ calls_for k st' = calls_for k st /\
  tcount (settled k) (<[i := t']> ts) = tcount (settled k) ts.
Proof.
  intros Hi Hw (Hq & Hc & Ho). simpl in *.
  pose proof (tcount_elem (awaits k) ts i _ Hi) as Hel.
  unfold outstanding in Ho. simpl in Hel. rewrite key_is_eq in Hel.
  destruct (decide (toLowerCase name = k)) as [_|Hne]; [lia|].
  pose proof (tcount_insert (awaits k) ts i _ t' Hi) as Hca.
  pose proof (tcount_insert (settled k) ts i _ t' Hi) as Hcs.
  unfold stuck, outstanding. simpl in *. rewrite key_is_eq, decide_False in Hca by done.
  unfold wrap_resume in Hw. destruct r as [n|e].
  - injection Hw as <- <-. simpl in *. rewrite key_is_eq, decide_False in Hcs by done.
    destruct st as [tc fq cl]. simpl in *.
    rewrite queued_insert, decide_False by done.
    rewrite (cached_insert_ne tc _ fq _ cl) by done.
    repeat split; auto; lia.
  - injection Hw as <- <-. simpl in *. rewrite key_is_eq, decide_False in Hcs by done.
    repeat split; auto; lia.
Qed.

Lemma step_stuck (k : string) (c c' : Config) :
  step c c' -> stuck k c ->
  stuck k c' /\ calls_for k (fst c') = calls_for k (fst c) /\
  tcount (settled k) (snd c') = tcount (settled k) (snd c).
Proof.
  intros Hs Hst. destruct Hs; simpl.
  - destruct Hst as (Hq & Hc & Ho). unfold stuck, outstanding in *; simpl in *.
    rewrite !tcount_app. simpl. repeat split; auto; lia.
  - eapply entry_stuck; [eassumption | | eassumption | assumption]. intros kk; split; reflexivity.
  - eapply entry_stuck; [eassumption | | eassumption | assumption]. intros kk; split; reflexivity.
  - eapply resume_stuck; eauto.
Qed.

Lemma steps_stuck (k : string) (c c' : Config) :
  steps c c' -> stuck k c ->
  stuck k c' /\ calls_for k (fst c') = calls_for k (fst c) /\
  tcount (settled k) (snd c') = tcount (settled k) (snd c).
Proof.
  induction 1 as [c|c1 c2 c3 H12 H23 IH]; intros Hst.
  - auto.
  - destruct (step_stuck k _ _ H12 Hst) as (Hst2 & Hcl & Hse).
    destruct (IH Hst2) as (Hst3 & Hcl' & Hse'). repeat split; try apply Hst3; congruence.
Qed.

End TokenizerFailure.

Module TokenizerTraces.

Import Tokenizer TokenizerProofs TokenizerFailure.

(** Run a concrete schedule and show the configuration is reachable. *)
Ltac run_trace :=
  lazymatch goal with
  | |- exists c, run ?c0 ?acts = Some c /\ steps _ c /\ _ =>
      eexists; split; [vm_compute; reflexivity|];
      split; [apply (run_steps c0 _ acts); vm_compute; reflexivity|]
  end.

(** When a name resolves to a non-zero count, any later call with any
    casing of it is served from [tokenCache] without a request. *)
Lemma nonzero_count_served_from_cache (st st' : TState) (name name' : string)
    (n : nat) (t : Task) :
  wrap_resume st name (ROk n) = (st', t) -> n <> 0 ->
  toLowerCase name' = toLowerCase name -> wrap_entry st' name' = (st', TDone name' n).
Proof.
  intros Hw Hn Hk. unfold wrap_resume in Hw. injection Hw as <- _.
  unfold wrap_entry, cached; simpl. rewrite Hk, lookup_insert_eq.
  destruct (Nat.eqb_spec n 0); [lia | reflexivity].
Qed.

(** A count of [0] is not truthy, so a later call fetches again. *)
Lemma zero_count_fetched_again (st st' : TState) (name name' : string) (t : Task) :
  wrap_resume st name (ROk 0) = (st', t) ->
  toLowerCase name' = toLowerCase name ->
  wrap_entry st' name' = (mkTState (tokenCache st') (<[toLowerCase name := true]> (fetchQueue st'))
                                   (calls st' ++ [name']), TAwait name').
Proof.
  intros Hw Hk. unfold wrap_resume in Hw. injection Hw as <- _.
  unfold wrap_entry, cached, queued; simpl. rewrite Hk, !lookup_insert_eq. reflexivity.
Qed.

(** The tested case: ["Test"] and ["TEST"] called together, one token:
    one request, both resolve to [1]. *)
Lemma case_variants_fetched_once :
  exists c, run (fresh, []) (case_schedule "Test" "TEST" (ROk 1)) = Some c /\
    steps (fresh, []) c /\ calls (fst c) = ["Test"] /\
    snd c = [TDone "Test" 1; TDone "TEST" 1].
Proof.
  run_trace. split; reflexivity.
Qed.

(** C4 (at the failing input): ["The"] and ["THE"] called together on a
    fresh transformer whose analyzer drops the stop word ["the"] (zero
    tokens): the waiter finds [tokenCache["the"] = 0], which is falsy, and
    issues a second analyze request. *)
Theorem zero_token_variants_fetched_twice :
  exists c, run (fresh, []) (case_schedule "The" "THE" (ROk 0) ++ [AResp 1 (ROk 0)]) = Some c /\
    steps (fresh, []) c /\ calls (fst c) = ["The"; "THE"] /\
    snd c = [TDone "The" 0; TDone "THE" 0].
Proof.
  run_trace. split; reflexivity.
Qed.

(** C8 (at the failing input): after ["The"] resolved to [0], a call for
    ["THE"] is not served from the cache but issues a new request. *)
Theorem zero_token_count_not_cached :
  exists c, run (fresh, []) (sequential_schedule (ROk 0)) = Some c /\
    steps (fresh, []) c /\ calls (fst c) = ["The"; "THE"] /\
    snd c = [TDone "The" 0; TAwait "THE"].
Proof.
  run_trace. split; reflexivity.
Qed.

(** C5 (at the failing input): the request for ["Test"] fails while a
    call for ["TEST"] waits.  [fetchQueue["test"]] stays [true], so in
    every continuation the waiter and a later call for ["test"] keep
    polling: no further request for the key is ever issued and no task
    for it settles beyond the failed one. *)
Theorem failed_fetch_blocks_key :
  exists c, run (fresh, []) failure_schedule = Some c /\
    snd c = [TFail "Test" "socket hang up"; TSleep "TEST"; TSleep "test"] /\
    calls (fst c) = ["Test"] /\ tokenCache (fst c) !! "test" = None /\
    forall c', steps c c' ->
      calls_for "test" (fst c') = 1 /\ tcount (settled "test") (snd c') = 1.
Proof.
  eexists; split; [vm_compute; reflexivity|].
  split; [reflexivity|]. split; [reflexivity|]. split; [vm_compute; reflexivity|].
  intros c' Hs.
  destruct (steps_stuck "test" _ _ Hs) as (_ & Hcl & Hse).
  { unfold stuck. split; [vm_compute; reflexivity | split; vm_compute; reflexivity]. }
  rewrite Hcl, Hse. split; vm_compute; reflexivity.
Qed.

End TokenizerTraces.

(* ===================================================================== *)
(** ** Properties of the loader's end() and loadRecord()                   *)
(* ===================================================================== *)

Module LoaderProofs.

Import Loader.

Lemma no_category_filter (l : list BestbetMatch) :
  Forall (fun m => isCategory m = false) l ->
  filter (fun m => isCategory m = true) l = [].
Proof.
  induction 1 as [|m l Hm _ IH]; [reflexivity|].
  rewrite filter_cons_False by (rewrite Hm; discriminate). exact IH.
Qed.

(** C3: when optimizing and the alias swap succeed and cleaning up old
    indices fails, [end()] rethrows the cleanup error after swapping the
    alias to the new index; the cleanup is the last [estools] call, so the
    alias still points at the new index. *)
Theorem end_keeps_alias_on_cleanup_failure (answer : EsOp -> option string)
    (l : LoaderInst) (s : LState) (err : string) :
  answer (OptimizeIndex (indexName l)) = None ->
  answer (SetAliasToSingleIndex (aliasName l) (indexName l)) = None ->
  answer (CleanupOldIndices (aliasName l) (daysToKeep l) (minIndexesToKeep l)) = Some err ->
  fst (end_ answer l s) = Err err /\
  aliases (snd (end_ answer l s)) !! aliasName l = Some (indexName l) /\
  ops (snd (end_ answer l s))
    = ops s ++ [OptimizeIndex (indexName l);
                SetAliasToSingleIndex (aliasName l) (indexName l);
                CleanupOldIndices (aliasName l) (daysToKeep l) (minIndexesToKeep l)].
Proof.
  intros Hopt Hset Hclean.
  unfold end_, catch, bind, esCall, logError, throw.
  rewrite Hopt. simpl. rewrite Hset. simpl. rewrite Hclean. simpl.
  split; [reflexivity|]. split.
  - apply lookup_insert_eq.
  - rewrite <- !app_assoc. reflexivity.
Qed.

(** C6 (as the code has it): a non-empty list with no record flagged
    [isCategory] is rejected with a message naming the first record's
    [contentID], before any write. *)
Theorem loadRecord_missing_display (env : WriteEnv) (idx : string)
    (m0 : BestbetMatch) (rest : list BestbetMatch) :
  Forall (fun m => isCategory m = false) (m0 :: rest) ->
  loadRecord env idx (m0 :: rest)
  = ([], Err ("Category " +:+ contentID m0 +:+ " is missing its display")).
Proof.
  intros Hall. unfold loadRecord, findCategoryDisplay.
  rewrite (no_category_filter _ Hall). reflexivity.
Qed.

(** C7: once the match list passes the checks and the bulk write
    answers, duplicates ([updated]) or per-document errors reject the
    call with a message naming the first record's [contentID]; with both
    lists empty and the display write accepted, the call succeeds. *)
Theorem loadRecord_bulk_result (env : WriteEnv) (idx : string)
    (m0 : BestbetMatch) (rest : list BestbetMatch) (cd : DisplayDoc) (res : BulkResult) :
  findCategoryDisplay (m0 :: rest) = Some cd ->
  bulk_answer env (docArr (m0 :: rest)) = Ok res ->
  doc_answer env cd = Ok tt ->
  (updated res <> [] ->
     snd (loadRecord env idx (m0 :: rest))
     = Err ("Category " +:+ contentID m0 +:+ " appears to have duplicates")) /\
  (updated res = [] -> errors res <> [] ->
     snd (loadRecord env idx (m0 :: rest))
     = Err ("Category " +:+ contentID m0 +:+ " appears had document errors")) /\
  (updated res = [] -> errors res = [] -> snd (loadRecord env idx (m0 :: rest)) = Ok tt).
Proof.
  intros Hcd Hbulk Hdoc.
  assert (Hlr : loadRecord env idx (m0 :: rest) =
    let ws := [IndexDocumentBulk idx "synonyms" (docArr (m0 :: rest));
               IndexDocument idx "categorydisplay" (d_contentid cd) cd] in
    if negb (length (updated res) =? 0)
    then (ws, Err ("Category " +:+ contentID m0 +:+ " appears to have duplicates"))
    else if negb (length (errors res) =? 0)
    then (ws, Err ("Category " +:+ contentID m0 +:+ " appears had document errors"))
    else (ws, Ok tt)).
  { unfold loadRecord. rewrite Hcd, Hbulk, Hdoc. reflexivity. }
  rewrite Hlr. cbv zeta.
  split; [|split].
  - intros Hu. destruct (updated res) as [|u us]; [congruence|reflexivity].
  - intros Hu He. rewrite Hu. destruct (errors res) as [|e es]; [congruence|reflexivity].
  - intros Hu He. rewrite Hu, He. reflexivity.
Qed.

End LoaderProofs.

(* ===================================================================== *)
(** ** Properties of ValidateConfig and GetInstance                        *)
(* ===================================================================== *)

Module ConfigProofs.

Import ConfigFields.

Lemma invalidate_all_fields (fs : list Field) (c : ConfigObj) :
  eshosts (invalidate_all fs c) = (if decide (FHosts ∈ fs) then JUndef else eshosts c) /\
  settingsPath (invalidate_all fs c)
    = (if decide (FSettings ∈ fs) then JUndef else settingsPath c) /\
  mappingPath (invalidate_all fs c)
    = (if decide (FMapping ∈ fs) then JUndef else mappingPath c) /\
  analyzer (invalidate_all fs c)
    = (if decide (FAnalyzer ∈ fs) then JUndef else analyzer c) /\
  socketLimit (invalidate_all fs c)
    = (if decide (FSocket ∈ fs) then JNum (-1) else socketLimit c).
Proof.
  induction fs as [|f fs IH]; simpl.
  - repeat split.
  - destruct IH as (H1 & H2 & H3 & H4 & H5).
    destruct (invalidate_all fs c) as [h s m a sl al d mi]; simpl in *. subst.
    destruct f; simpl; repeat split; repeat case_decide;
      try reflexivity; exfalso; set_solver.
Qed.

Lemma nonempty_not_bad (v : jsval) : nonempty_string v = true -> bad_string v = false.
Proof. destruct v as [| | | | |s| |]; try discriminate. unfold bad_string; simpl. destruct (String.eqb s ""%string); simpl; congruence. Qed.

Lemma socket_ok_not_bad (v : jsval) : socket_ok v = true -> bad_socket v = false.
Proof.
  destruct v as [| | |z| | | |]; simpl; try discriminate; auto.
  intros H. apply Z.ltb_lt in H.
  unfold bad_socket; simpl.
  destruct (Z.eqb_spec z 0); [lia|]. simpl. apply Z.leb_gt. lia.
Qed.

(** C9 (as the code has it): on a fully valid configuration whose fields
    [fs] are made invalid, each [ValidateConfig] returns one error per
    invalid field it checks, in its own order: the transformer checks
    hosts, settings path, analyzer, socket limit; the loader checks
    mapping path, settings path, hosts, socket limit.  With [fs = []]
    both return [[]]; with one required field omitted, one error. *)
Theorem validate_config_errors (c : ConfigObj) (fs : list Field) :
  fully_valid c = true ->
  TransformerConfig.ValidateConfig (invalidate_all fs c)
    = errors_in transformer_order transformer_msg fs /\
  LoaderConfig.ValidateConfig (invalidate_all fs c)
    = errors_in loader_order loader_msg fs.
Proof.
  intros Hv. unfold fully_valid in Hv.
  apply andb_prop in Hv as [Hv Hs]. apply andb_prop in Hv as [Hv Ha].
  apply andb_prop in Hv as [Hv Hm]. apply andb_prop in Hv as [Hh Hst].
  destruct (invalidate_all_fields fs c) as (E1 & E2 & E3 & E4 & E5).
  unfold TransformerConfig.ValidateConfig, LoaderConfig.ValidateConfig, errors_in.
  rewrite E1, E2, E3, E4, E5.
  unfold transformer_order, loader_order. rewrite !filter_cons, !filter_nil.
  destruct (decide (FHosts ∈ fs)), (decide (FSettings ∈ fs)), (decide (FMapping ∈ fs)),
    (decide (FAnalyzer ∈ fs)), (decide (FSocket ∈ fs));
    simpl; rewrite ?Hh, ?nonempty_not_bad, ?socket_ok_not_bad by assumption;
    split; reflexivity.
Qed.

(** Run the [if]s of a [GetInstance] down to the branch that throws. *)
Ltac throws := eexists; reflexivity.

(** C10 (as the code has it): whenever [ValidateConfig] reports an error,
    [GetInstance] of the same component throws; for the loader, when the
    files load, it throws the first message [ValidateConfig] reports. *)
Theorem getinstance_throws_on_validate_errors (env : FsEnv) (c : ConfigObj) :
  (TransformerConfig.ValidateConfig c <> [] ->
     exists msg, TransformerConfig.GetInstance env c = Err msg) /\
  (LoaderConfig.ValidateConfig c <> [] ->
     exists msg, LoaderConfig.GetInstance env c = Err msg) /\
  ((forall p, is_Some (require env p)) ->
     forall e es, LoaderConfig.ValidateConfig c = e :: es ->
                  LoaderConfig.GetInstance env c = Err e).
Proof.
  split; [|split].
  - intros H. unfold TransformerConfig.GetInstance.
    destruct (truthy (eshosts c)) eqn:E1; simpl; [|throws].
    destruct (bad_socket (socketLimit c)) eqn:E2; [throws|].
    destruct (bad_string (settingsPath c)) eqn:E3; [throws|].
    destruct (require env (join env (str_of (settingsPath c)))); [|throws].
    destruct (bad_string (analyzer c)) eqn:E4; [throws|].
    exfalso. apply H. unfold TransformerConfig.ValidateConfig.
    rewrite E1, E2, E3, E4. reflexivity.
  - intros H. unfold LoaderConfig.GetInstance.
    destruct (bad_string (mappingPath c)) eqn:E1; [throws|]. cbv zeta.
    destruct (require env (join env (str_of (mappingPath c)))); [|throws].
    destruct (bad_string (settingsPath c)) eqn:E2; [throws|].
    destruct (require env (join env (str_of (settingsPath c)))); [|throws].
    destruct (truthy (eshosts c)) eqn:E3; simpl; [|throws].
    destruct (bad_socket (socketLimit c)) eqn:E4; [throws|].
    exfalso. apply H. unfold LoaderConfig.ValidateConfig.
    rewrite E1, E2, E3, E4. reflexivity.
  - intros Hreq e es H. unfold LoaderConfig.ValidateConfig in H.
    unfold LoaderConfig.GetInstance.
    destruct (Hreq (join env (str_of (mappingPath c)))) as [x1 Hx1].
    destruct (Hreq (join env (str_of (settingsPath c)))) as [x2 Hx2].
    destruct (bad_string (mappingPath c)) eqn:E1;
      [simpl in H; injection H as <- _; reflexivity|]. cbv zeta. rewrite Hx1.
    destruct (bad_string (settingsPath c)) eqn:E2;
      [simpl in H; injection H as <- _; reflexivity|]. rewrite Hx2.
    destruct (truthy (eshosts c)) eqn:E3;
      [|simpl in H; injection H as <- _; reflexivity]. simpl.
    destruct (bad_socket (socketLimit c)) eqn:E4;
      [simpl in H; injection H as <- _; reflexivity|].
    simpl in H. discriminate.
Qed.

End ConfigProofs.

(* ===================================================================== *)
(** ** Concrete instances and counterexamples                              *)
(* ===================================================================== *)

Module Instances.

Import Transformer Loader ConfigFields Examples.
Import TransformProofs LoaderProofs ConfigProofs.

(** [transform_record_order] on [DUPES]: the first exclude synonym is the
    fourth record, negated. *)
Lemma transform_record_order_witness :
  exists m, transform words DUPES !! 3 = Some m /\ m_synonym m = "dupes" /\
            m_isNegated m = true /\ m_isExact m = false.
Proof.
  destruct (transform_record_order words DUPES) as (_ & _ & _ & Hex).
  apply (Hex 0 (mkSynonym "dupes" false)). reflexivity.
Defined.

(** [end()] of a new loader whose cleanup fails. *)
Lemma end_keeps_alias_witness :
  fst (end_ cleanupFails newLoader emptyEngine) = Err "cleanup failed" /\
  aliases (snd (end_ cleanupFails newLoader emptyEngine)) !! "bestbets_v1"
    = Some "bestbets_v1_20181012" /\
  ops (snd (end_ cleanupFails newLoader emptyEngine))
    = [OptimizeIndex "bestbets_v1_20181012";
       SetAliasToSingleIndex "bestbets_v1" "bestbets_v1_20181012";
       CleanupOldIndices "bestbets_v1" 10 2].
Proof.
  apply (end_keeps_alias_on_cleanup_failure cleanupFails newLoader emptyEngine
           "cleanup failed"); reflexivity.
Defined.

(** C6 counterexample: a record flagged [isCategory] that carries no
    display passes the check, and both writes are issued. *)
Lemma flagged_match_without_display_loads :
  Forall (fun m => categoryDisplay m = None) [tobacco true None] /\
  snd (loadRecord (writesAnswer [] []) "bestbets_v1_20181012" [tobacco true None]) = Ok tt /\
  length (fst (loadRecord (writesAnswer [] []) "bestbets_v1_20181012" [tobacco true None])) = 2.
Proof. split; [repeat constructor | split; reflexivity]. Qed.

(** [loadRecord] on a list whose only record, with a display, is not
    flagged [isCategory]. *)
Lemma loadRecord_missing_display_witness :
  loadRecord (writesAnswer [] []) "bestbets_v1_20181012" [tobacco false (Some "<p>Tobacco</p>")]
  = ([], Err "Category 35884 is missing its display").
Proof. apply loadRecord_missing_display. repeat constructor. Defined.

(** [loadRecord] when the bulk write reports an overwritten document. *)
Lemma loadRecord_bulk_result_witness :
  snd (loadRecord (writesAnswer ["35884_0"] []) "bestbets_v1_20181012"
                  [tobacco true (Some "<p>Tobacco</p>")])
  = Err "Category 35884 appears to have duplicates".
Proof.
  destruct (loadRecord_bulk_result (writesAnswer ["35884_0"] []) "bestbets_v1_20181012"
              (tobacco true (Some "<p>Tobacco</p>")) []
              (mkDisplayDoc "35884" "Tobacco Control" None (Some "<p>Tobacco</p>"))
              (mkBulkResult ["35884_0"] []) eq_refl eq_refl eq_refl) as (Hdup & _ & _).
  apply Hdup. discriminate.
Defined.

(** C9 counterexample: without hosts and mapping path the loader reports
    the mapping path first, not in the stated hosts-first order. *)
Lemma loader_checks_mapping_before_hosts :
  fully_valid GOOD_STEP_CONFIG = true /\
  LoaderConfig.ValidateConfig (invalidate_all [FHosts; FMapping] GOOD_STEP_CONFIG)
    = ["mappingPath is required for the elastic loader";
       "eshosts is required for the elastic loader"] /\
  LoaderConfig.ValidateConfig (invalidate_all [FHosts; FMapping] GOOD_STEP_CONFIG)
    <> declared_errors loader_order loader_msg [FHosts; FMapping].
Proof. split; [reflexivity | split; [reflexivity | vm_compute; discriminate]]. Qed.

(** [validate_config_errors] on [GOOD_STEP_CONFIG] without hosts and
    mapping path. *)
Lemma validate_config_errors_witness :
  TransformerConfig.ValidateConfig (invalidate_all [FHosts; FMapping] GOOD_STEP_CONFIG)
    = ["eshosts is required for the transformer"] /\
  LoaderConfig.ValidateConfig (invalidate_all [FHosts; FMapping] GOOD_STEP_CONFIG)
    = ["mappingPath is required for the elastic loader";
       "eshosts is required for the elastic loader"].
Proof. apply (validate_config_errors GOOD_STEP_CONFIG [FHosts; FMapping]). reflexivity. Defined.

(** C10 counterexample: an analyzer missing from the settings passes the
    transformer's [ValidateConfig] but makes [GetInstance] throw. *)
Lemma analyzer_missing_from_settings :
  TransformerConfig.ValidateConfig chickenAnalyzer = [] /\
  TransformerConfig.GetInstance goodFs chickenAnalyzer = Err "Could not find analyzer in settings".
Proof. split; reflexivity. Qed.

(** [getinstance_throws_on_validate_errors] on a loader configuration
    without a mapping path, all files loading. *)
Lemma getinstance_throws_witness :
  LoaderConfig.GetInstance goodFs (invalidate_all [FMapping] GOOD_STEP_CONFIG)
  = Err "mappingPath is required for the elastic loader".
Proof.
  destruct (getinstance_throws_on_validate_errors goodFs (invalidate_all [FMapping] GOOD_STEP_CONFIG))
    as (_ & _ & H).
  apply (H (fun p => ltac:(eexists; reflexivity)) _ [] eq_refl).
Defined.

End Instances.

(* ===================================================================== *)
(** ** Properties of extractNamesToTokenize, tokenizeNames and transform   *)
(* ===================================================================== *)

Module TransformerExtra.

Import Transformer.
Lemma dedupStep_cases (ac : list string) (curr : string) :
  (dedupStep ac curr = ac /\ exists el, el ∈ ac /\ toLowerCase el = toLowerCase curr) \/
  (dedupStep ac curr = ac ++ [curr] /\ forall el, el ∈ ac -> toLowerCase el <> toLowerCase curr).
Proof.
  unfold dedupStep. destruct (existsb _ ac) eqn:E.
  - left. split; [reflexivity|]. apply existsb_exists in E as (el & Hin & Heq).
    apply String.eqb_eq in Heq. exists el. split; [apply list_elem_of_In; exact Hin|exact Heq].
  - right. split; [reflexivity|]. intros el Hin Heq.
    assert (existsb (fun el => String.eqb (toLowerCase el) (toLowerCase curr)) ac = true) as E'.
    { apply existsb_exists. exists el. split; [apply list_elem_of_In; exact Hin|apply String.eqb_eq; exact Heq]. }
    congruence.
Qed.

Lemma dedup_fold_nodup (l ac : list string) :
  NoDup (map toLowerCase ac) -> NoDup (map toLowerCase (fold_left dedupStep l ac)).
Proof.
  revert ac; induction l as [|x l IH]; intros ac Hnd; simpl; [exact Hnd|].
  apply IH. destruct (dedupStep_cases ac x) as [[-> _]|[-> Hne]]; [exact Hnd|].
  rewrite map_app. apply NoDup_app. split; [exact Hnd|]. split; [|apply NoDup_singleton].
  intros y Hy Hy'. apply list_elem_of_singleton in Hy'. subst y.
  apply list_elem_of_In, in_map_iff in Hy as (el & Heq & Hin). exact (Hne el (proj2 (list_elem_of_In _ _) Hin) Heq).
Qed.

Lemma dedup_fold_sublist (l ac : list string) :
  fold_left dedupStep l ac `sublist_of` ac ++ l.
Proof.
  revert ac; induction l as [|x l IH]; intros ac; simpl.
  - rewrite app_nil_r. reflexivity.
  - etrans; [apply IH|].
    destruct (dedupStep_cases ac x) as [[-> _]|[-> _]].
    + apply sublist_app; [reflexivity|]. apply sublist_cons_r. left. reflexivity.
    + rewrite <- app_assoc. reflexivity.
Qed.

Lemma dedup_fold_prefix (l ac : list string) (x : string) :
  x ∈ ac -> x ∈ fold_left dedupStep l ac.
Proof.
  revert ac; induction l as [|y l IH]; intros ac Hx; simpl; [exact Hx|].
  apply IH. destruct (dedupStep_cases ac y) as [[-> _]|[-> _]]; [exact Hx|].
  apply elem_of_app. left. exact Hx.
Qed.

Lemma dedup_fold_first (l ac : list string) (i : nat) (x : string) :
  l !! i = Some x ->
  (forall el, el ∈ ac -> toLowerCase el <> toLowerCase x) ->
  (forall j y, j < i -> l !! j = Some y -> toLowerCase y <> toLowerCase x) ->
  x ∈ fold_left dedupStep l ac.
Proof.
  revert ac i; induction l as [|y l IH]; intros ac i Hi Hac Hbefore; [discriminate|].
  simpl. destruct i as [|i].
  - injection Hi as ->. apply dedup_fold_prefix.
    destruct (dedupStep_cases ac x) as [[_ (el & Hin & Heq)]|[-> _]].
    + exfalso. exact (Hac el Hin Heq).
    + apply elem_of_app. right. apply list_elem_of_singleton. reflexivity.
  - apply (IH _ i Hi).
    + intros el Hin.
      destruct (dedupStep_cases ac y) as [[E _]|[E _]]; rewrite E in Hin; [exact (Hac el Hin)|].
      apply elem_of_app in Hin as [Hin|Hin]; [exact (Hac el Hin)|].
      apply list_elem_of_singleton in Hin as ->. apply (Hbefore 0); [lia|reflexivity].
    + intros j z Hj Hz. apply (Hbefore (S j)); [lia|exact Hz].
Qed.

Lemma dedup_fold_cover (l ac : list string) (x : string) :
  x ∈ ac ++ l -> exists y, y ∈ fold_left dedupStep l ac /\ toLowerCase y = toLowerCase x.
Proof.
  revert ac x; induction l as [|z l IH]; intros ac x Hx; simpl.
  - rewrite app_nil_r in Hx. exists x. split; [exact Hx|reflexivity].
  - assert (Hrep : exists w, w ∈ dedupStep ac z ++ l /\ toLowerCase w = toLowerCase x).
    { apply elem_of_app in Hx as [Hx|Hx].
      - exists x. split; [|reflexivity]. apply elem_of_app. left.
        destruct (dedupStep_cases ac z) as [[-> _]|[-> _]]; [exact Hx|].
        apply elem_of_app. left. exact Hx.
      - apply elem_of_cons in Hx as [->|Hx].
        + destruct (dedupStep_cases ac z) as [[-> (el & Hin & Heq)]|[-> _]].
          * exists el. split; [apply elem_of_app; left; exact Hin|exact Heq].
          * exists z. split; [|reflexivity]. apply elem_of_app. left.
            apply elem_of_app. right. apply list_elem_of_singleton. reflexivity.
        + exists x. split; [apply elem_of_app; right; exact Hx|reflexivity]. }
    destruct Hrep as (w & Hw & Hwx).
    destruct (IH _ _ Hw) as (y & Hy & Hyw). exists y. split; [exact Hy|congruence].
Qed.

(** X1: [extractNamesToTokenize] keeps no two names equal after
    [toLowerCase]; its names appear in the order of the input list
    (category name, include names, exclude names), and the category name
    comes first. *)
Theorem extract_names_case_distinct (cat : Category) :
  let names := extractNamesToTokenize cat in
  NoDup (map toLowerCase names) /\
  names `sublist_of` (categoryName cat :: map syn_name (includeSynonyms cat)
                                   ++ map syn_name (excludeSynonyms cat)) /\
  head names = Some (categoryName cat).
Proof.
  cbv zeta. unfold extractNamesToTokenize. split; [|split].
  - apply dedup_fold_nodup. constructor.
  - apply (dedup_fold_sublist _ []).
  - simpl. unfold dedupStep at 2. simpl.
    generalize (map syn_name (includeSynonyms cat) ++ map syn_name (excludeSynonyms cat)).
    intros l.
    assert (forall ac, head (fold_left dedupStep l (categoryName cat :: ac)) = Some (categoryName cat)).
    { induction l as [|x l IH]; intros ac; simpl; [reflexivity|].
      destruct (dedupStep_cases (categoryName cat :: ac) x) as [[-> _]|[-> _]]; [apply IH|].
      apply (IH (ac ++ [x])). }
    apply (H []).
Qed.

(** X2: [extractNamesToTokenize] keeps the first name of each case-folded
    class of the input, with its own casing, and every input name has a
    kept name equal to it after [toLowerCase]. *)
Theorem extract_names_first_occurrences (cat : Category) :
  let input := categoryName cat :: map syn_name (includeSynonyms cat)
                                ++ map syn_name (excludeSynonyms cat) in
  (forall i x, input !! i = Some x ->
     (forall j y, j < i -> input !! j = Some y -> toLowerCase y <> toLowerCase x) ->
     x ∈ extractNamesToTokenize cat) /\
  (forall x, x ∈ input -> exists y, y ∈ extractNamesToTokenize cat /\
                                    toLowerCase y = toLowerCase x).
Proof.
  cbv zeta. split.
  - intros i x Hi Hb. apply (dedup_fold_first _ [] i x Hi); [|exact Hb].
    intros el Hel. apply elem_of_nil in Hel. contradiction.
  - intros x Hx. apply (dedup_fold_cover _ [] x Hx).
Qed.






End TransformerExtra.

(* ===================================================================== *)
(** ** Properties of the loader's other paths                              *)
(* ===================================================================== *)

Module LoaderExtra.

Import Loader LoaderBegin LoaderProofs.

Lemma digits_no_us (x : N) (s : string) :
  (forall a b, s <> a +:+ String "_" b) ->
  forall a b, pretty_N_go x s <> a +:+ String "_" b.
Proof.
  revert s. induction (N.lt_wf_0 x) as [x _ IH]; intros s Hs.
  destruct (decide (x = 0)%N) as [->|Hx].
  - rewrite pretty_N_go_0. exact Hs.
  - rewrite pretty_N_go_step by lia. apply IH; [apply N.div_lt; lia|].
    intros [|c a] b Heq; simpl in Heq.
    + injection Heq as Hc _. unfold pretty_N_char in Hc. repeat case_match; discriminate.
    + injection Heq as _ Heq. exact (Hs a b Heq).
Qed.

Lemma pretty_no_us (n : N) : forall a b, pretty n <> a +:+ String "_" b.
Proof.
  unfold pretty, pretty_N. case_decide.
  - intros [|c a] b Heq; simpl in Heq; [discriminate|]. injection Heq as _ Heq. destruct a; discriminate.
  - apply digits_no_us. intros [|c a] b Heq; discriminate.
Qed.

Lemma split_last_us (s1 s2 d1 d2 : string) :
  (forall a b, d1 <> a +:+ String "_" b) -> (forall a b, d2 <> a +:+ String "_" b) ->
  s1 +:+ String "_" d1 = s2 +:+ String "_" d2 -> s1 = s2 /\ d1 = d2.
Proof.
  intros H1 H2. revert s2; induction s1 as [|c s1 IH]; intros [|c' s2] Heq; simpl in Heq.
  - injection Heq as ->. split; reflexivity.
  - injection Heq as <- Heq. exfalso. exact (H1 _ _ Heq).
  - injection Heq as -> Heq. exfalso. exact (H2 _ _ (eq_sym Heq)).
  - injection Heq as -> Heq. destruct (IH _ Heq) as [-> ->]. split; reflexivity.
Qed.

Lemma lookup_map_fst {A B} (l : list (A * B)) (i : nat) :
  map fst l !! i = fst <$> (l !! i).
Proof. revert i; induction l as [|x l IH]; intros [|i]; simpl; auto. Qed.

(** X5: the bulk list of [loadRecord] has one entry per match, in order:
    entry [i] is the match's synonym document under the id
    [`${contentID}_${i}`]; no two entries share an id, whatever the
    content ids. *)
Theorem docArr_ids (matches : list BestbetMatch) :
  length (docArr matches) = length matches /\
  (forall i m, matches !! i = Some m ->
     docArr matches !! i = Some (contentID m +:+ "_" +:+ pretty (N.of_nat i), toSynonymDoc m)) /\
  NoDup (map fst (docArr matches)).
Proof.
  unfold docArr. split; [|split].
  - apply length_imap.
  - intros i m Hi. rewrite list_lookup_imap, Hi. reflexivity.
  - apply NoDup_alt. intros i j x Hi Hj.
    rewrite lookup_map_fst, list_lookup_imap in Hi, Hj.
    destruct (matches !! i) as [mi|]; [|discriminate].
    destruct (matches !! j) as [mj|]; [|discriminate].
    simpl in Hi, Hj. injection Hi as <-. injection Hj as Hj.
    destruct (split_last_us _ _ _ _ (pretty_no_us _) (pretty_no_us _) Hj) as [_ Hp].
    apply (inj pretty) in Hp. lia.
Qed.

Lemma findCategoryDisplay_first (pre post : list BestbetMatch) (cm : BestbetMatch) :
  Forall (fun m => isCategory m = false) pre -> isCategory cm = true ->
  findCategoryDisplay (pre ++ cm :: post)
  = Some (mkDisplayDoc (contentID cm) (category cm) (weight cm) (categoryDisplay cm)).
Proof.
  intros Hpre Hcm. unfold findCategoryDisplay.
  rewrite filter_app, (LoaderProofs.no_category_filter _ Hpre), filter_cons_True by exact Hcm.
  reflexivity.
Qed.

(** X6: when the records before the first one flagged [isCategory] are
    unflagged, [loadRecord] issues exactly two writes, whatever the engine
    answers: the bulk write of all the matches to [synonyms] (the flagged
    record included) and the display document of that first flagged
    record to [categorydisplay], under its content id. *)
Theorem loadRecord_writes (env : WriteEnv) (idx : string)
    (pre post : list BestbetMatch) (cm : BestbetMatch) :
  Forall (fun m => isCategory m = false) pre -> isCategory cm = true ->
  fst (loadRecord env idx (pre ++ cm :: post))
  = [IndexDocumentBulk idx "synonyms" (docArr (pre ++ cm :: post));
     IndexDocument idx "categorydisplay" (contentID cm)
       (mkDisplayDoc (contentID cm) (category cm) (weight cm) (categoryDisplay cm))].
Proof.
  intros Hpre Hcm.
  pose proof (findCategoryDisplay_first pre post cm Hpre Hcm) as Hf.
  unfold loadRecord. destruct (pre ++ cm :: post) as [|m0 rest] eqn:E.
  { destruct pre; discriminate. }
  rewrite Hf.
  destruct (bulk_answer env (docArr (m0 :: rest))) as [res|e];
    destruct (doc_answer env (mkDisplayDoc (contentID cm) (category cm) (weight cm)
                                           (categoryDisplay cm))) as [[]|e'];
    try reflexivity.
  destruct (negb _); [reflexivity|]. destruct (negb _); reflexivity.
Qed.

(** X7: the records [transform] returns carry no [isCategory] property,
    so [loadRecord] rejects every one of its outputs with the missing
    display error for the category, and issues no write. *)
Theorem transform_output_missing_display (env : WriteEnv) (idx : string)
    (count : string -> nat) (data : Transformer.Category) :
  loadRecord env idx (map Pipeline.toBestbetMatch (Transformer.transform count data))
  = ([], Err ("Category " +:+ Transformer.categoryID data +:+ " is missing its display")).
Proof.
  unfold loadRecord, findCategoryDisplay.
  rewrite LoaderProofs.no_category_filter.
  - reflexivity.
  - apply Forall_forall. intros m Hm. apply list_elem_of_In, in_map_iff in Hm as (m' & <- & _). reflexivity.
Qed.

(** X8: when every [estools] call succeeds, [end()] resolves after
    optimizing the index, swapping the alias to it and cleaning up, in
    that order, and logs nothing. *)
Theorem end_succeeds (answer : EsOp -> option string) (l : LoaderInst) (s : LState) :
  (forall op, answer op = None) ->
  end_ answer l s
  = (Ok tt, mkLState (<[aliasName l := indexName l]> (aliases s))
                     (ops s ++ [OptimizeIndex (indexName l);
                                SetAliasToSingleIndex (aliasName l) (indexName l);
                                CleanupOldIndices (aliasName l) (daysToKeep l) (minIndexesToKeep l)])
                     (logs s)).
Proof.
  intros Hok. unfold end_, catch, bind, esCall. rewrite !Hok. simpl.
  rewrite <- !app_assoc. reflexivity.
Qed.

(** X9: when optimizing the index fails, [end()] stops there; when the
    alias swap fails, no cleanup is attempted.  Either way it rethrows the
    error, leaves every alias as it was and logs one line. *)
Theorem end_rejects_before_swap (answer : EsOp -> option string) (l : LoaderInst)
    (s : LState) (err : string) :
  (answer (OptimizeIndex (indexName l)) = Some err ->
   end_ answer l s = (Err err, mkLState (aliases s) (ops s ++ [OptimizeIndex (indexName l)])
                                        (logs s ++ ["Errors occurred during end process"]))) /\
  (answer (OptimizeIndex (indexName l)) = None ->
   answer (SetAliasToSingleIndex (aliasName l) (indexName l)) = Some err ->
   end_ answer l s = (Err err, mkLState (aliases s)
                                        (ops s ++ [OptimizeIndex (indexName l);
                                                   SetAliasToSingleIndex (aliasName l) (indexName l)])
                                        (logs s ++ ["Errors occurred during end process"]))).
Proof.
  split.
  - intros Hopt. unfold end_, catch, bind, esCall, logError, throw. rewrite Hopt. reflexivity.
  - intros Hopt Hset. unfold end_, catch, bind, esCall, logError, throw.
    rewrite Hopt. simpl. rewrite Hset. simpl. rewrite <- app_assoc. reflexivity.
Qed.

(** X10: when only the cleanup of old indices fails, [end()] logs two
    error lines: the cleanup one, then the general one. *)
Theorem end_cleanup_failure_logs (answer : EsOp -> option string) (l : LoaderInst)
    (s : LState) (err : string) :
  answer (OptimizeIndex (indexName l)) = None ->
  answer (SetAliasToSingleIndex (aliasName l) (indexName l)) = None ->
  answer (CleanupOldIndices (aliasName l) (daysToKeep l) (minIndexesToKeep l)) = Some err ->
  logs (snd (end_ answer l s))
  = logs s ++ ["Could not cleanup old indices"; "Errors occurred during end process"].
Proof.
  intros Hopt Hset Hclean. unfold end_, catch, bind, esCall, logError, throw.
  rewrite Hopt. simpl. rewrite Hset. simpl. rewrite Hclean. simpl.
  rewrite <- app_assoc. reflexivity.
Qed.

(** X11: on a new loader, a failed index creation makes [begin()] rethrow
    the error, leave [indexName] unset and log "Failed to create index
    false"; a created index is the one the alias points to once [end()]
    succeeds. *)
Theorem begin_then_end (create : string -> result string) (answer : EsOp -> option string)
    (alias : string) (days minIdx : nat) (logs0 : list string) (s : LState) :
  (forall e, create alias = Err e ->
     begin_ create alias None logs0 = (Err e, None, logs0 ++ ["Failed to create index false"])) /\
  (forall name, create alias = Ok name -> (forall op, answer op = None) ->
     exists ix, begin_ create alias None logs0 = (Ok tt, Some ix, logs0) /\
       fst (end_ answer (mkLoaderInst alias ix days minIdx) s) = Ok tt /\
       aliases (snd (end_ answer (mkLoaderInst alias ix days minIdx) s)) !! alias = Some name).
Proof.
  split.
  - intros e He. unfold begin_. rewrite He. reflexivity.
  - intros name Hc Hok. exists name. unfold begin_. rewrite Hc. split; [reflexivity|].
    unfold end_, catch, bind, esCall. rewrite !Hok. simpl.
    split; [reflexivity|]. apply lookup_insert_eq.
Qed.

End LoaderExtra.

(* ===================================================================== *)
(** ** Properties of the constructors and GetInstance                      *)
(* ===================================================================== *)

Module ConfigExtra.

Lemma count_option_ok (v d : jsval) :
  truthy d = true -> is_number d = true ->
  (negb (truthy (LoaderConfig.with_default v d)) || negb (is_number (LoaderConfig.with_default v d)))
    = false <-> (v = JUndef \/ exists z, v = JNum z /\ z <> 0%Z).
Proof.
  intros Hd1 Hd2. destruct v as [| |b|z| |s| |]; simpl; rewrite ?Hd1, ?Hd2; simpl;
    split; intros H.
  all: try (left; reflexivity); try reflexivity.
  all: try (destruct H as [H|(z' & H & _)]; discriminate).
  all: try (destruct b; discriminate).
  all: try (destruct (String.eqb s ""); discriminate).
  all: try (right; exists z; split; [reflexivity|]; destruct (Z.eqb_spec z 0); [discriminate|assumption]).
  all: try (destruct H as [H|(z' & H & Hz)]; [discriminate|]; injection H as <-;
            destruct (Z.eqb_spec z 0); [contradiction|reflexivity]).
  all: discriminate.
Qed.

(** X12: the loader's constructor accepts its options exactly when
    [aliasName] is a non-empty string and [daysToKeep] and
    [minIndexesToKeep] are each omitted or a non-zero number: a negative
    number passes, while [0], [NaN] and [null] are rejected. *)
Theorem construct_accepts (c : ConfigObj) :
  LoaderConfig.construct c = Ok tt <->
  (exists s, aliasName c = JStr s /\ s <> ""%string) /\
  (daysToKeep c = JUndef \/ exists z, daysToKeep c = JNum z /\ z <> 0%Z) /\
  (minIndexesToKeep c = JUndef \/ exists z, minIndexesToKeep c = JNum z /\ z <> 0%Z).
Proof.
  pose proof (count_option_ok (daysToKeep c) (JNum 10) eq_refl eq_refl) as Hd.
  pose proof (count_option_ok (minIndexesToKeep c) (JNum 2) eq_refl eq_refl) as Hm.
  assert (Ha : bad_string (LoaderConfig.with_default (aliasName c) (JBool false)) = false <->
               exists s, aliasName c = JStr s /\ s <> ""%string).
  { unfold bad_string. destruct (aliasName c) as [| |b|z| |s| |]; simpl; split; intros H.
    all: try (destruct H as (s' & H & _); discriminate).
    all: try (destruct b; discriminate).
    all: try discriminate.
    { rewrite orb_true_r in H. discriminate. }
    - exists s. split; [reflexivity|]. destruct (String.eqb_spec s ""); [discriminate|assumption].
    - destruct H as (s' & H & Hs). injection H as <-.
      destruct (String.eqb_spec s ""); [contradiction|reflexivity]. }
  unfold LoaderConfig.construct. cbv zeta.
  destruct (bad_string (LoaderConfig.with_default (aliasName c) (JBool false))) eqn:E1.
  { split; [discriminate|]. intros (H1 & _ & _). apply Ha in H1. congruence. }
  destruct (negb (truthy (LoaderConfig.with_default (daysToKeep c) (JNum 10)))
            || negb (is_number (LoaderConfig.with_default (daysToKeep c) (JNum 10)))) eqn:E2.
  { split; [discriminate|]. intros (_ & H2 & _). apply Hd in H2. congruence. }
  destruct (negb (truthy (LoaderConfig.with_default (minIndexesToKeep c) (JNum 2)))
            || negb (is_number (LoaderConfig.with_default (minIndexesToKeep c) (JNum 2)))) eqn:E3.
  { split; [discriminate|]. intros (_ & _ & H3). apply Hm in H3. congruence. }
  split; [intros _|reflexivity]. split; [apply Ha; reflexivity|].
  split; [apply Hd; reflexivity|apply Hm; reflexivity].
Qed.

Lemma transformer_getinstance_ok (env : FsEnv) (c : ConfigObj) :
  TransformerConfig.GetInstance env c = Ok tt <->
  truthy (eshosts c) = true /\ bad_socket (socketLimit c) = false /\
  bad_string (settingsPath c) = false /\ bad_string (analyzer c) = false /\
  exists analyzers, require env (join env (str_of (settingsPath c))) = Some analyzers /\
                    str_of (analyzer c) ∈ analyzers.
Proof.
  unfold TransformerConfig.GetInstance.
  destruct (truthy (eshosts c)); simpl; [|split; [discriminate|intros (H & _); discriminate]].
  destruct (bad_socket (socketLimit c)); [split; [discriminate|intros (_ & H & _); discriminate]|].
  destruct (bad_string (settingsPath c)); [split; [discriminate|intros (_ & _ & H & _); discriminate]|].
  destruct (require env _) as [analyzers|] eqn:Er;
    [|split; [discriminate|intros (_ & _ & _ & _ & a & H & _); discriminate]].
  destruct (bad_string (analyzer c)); [split; [discriminate|intros (_ & _ & _ & H & _); discriminate]|].
  case_bool_decide as Hin.
  - split; [intros _|reflexivity]. repeat split. exists analyzers. split; [reflexivity|exact Hin].
  - split; [discriminate|]. intros (_ & _ & _ & _ & a & Ha & Hin'). injection Ha as <-. contradiction.
Qed.

Lemma loader_getinstance_ok (env : FsEnv) (c : ConfigObj) :
  LoaderConfig.GetInstance env c = Ok tt <->
  bad_string (mappingPath c) = false /\ bad_string (settingsPath c) = false /\
  truthy (eshosts c) = true /\ bad_socket (socketLimit c) = false /\
  is_Some (require env (join env (str_of (mappingPath c)))) /\
  is_Some (require env (join env (str_of (settingsPath c)))) /\
  LoaderConfig.construct c = Ok tt.
Proof.
  unfold LoaderConfig.GetInstance.
  destruct (bad_string (mappingPath c)); [split; [discriminate|intros (H & _); discriminate]|].
  cbv zeta.
  destruct (require env (join env (str_of (mappingPath c)))) as [m|] eqn:Em;
    [|split; [discriminate|intros (_ & _ & _ & _ & [x H] & _); discriminate]].
  destruct (bad_string (settingsPath c)); [split; [discriminate|intros (_ & H & _); discriminate]|].
  destruct (require env (join env (str_of (settingsPath c)))) as [s|] eqn:Es;
    [|split; [discriminate|intros (_ & _ & _ & _ & _ & [x H] & _); discriminate]].
  destruct (truthy (eshosts c)); simpl; [|split; [discriminate|intros (_ & _ & H & _); discriminate]].
  destruct (bad_socket (socketLimit c)); [split; [discriminate|intros (_ & _ & _ & H & _); discriminate]|].
  split; [intros H; repeat split; eauto|intros (_ & _ & _ & _ & _ & _ & H); exact H].
Qed.

(** X13: the transformer's [GetInstance] succeeds exactly when its
    [ValidateConfig] reports nothing, the settings file loads and it
    defines the named analyzer. *)
Theorem transformer_getinstance_accepts (env : FsEnv) (c : ConfigObj) :
  TransformerConfig.GetInstance env c = Ok tt <->
  TransformerConfig.ValidateConfig c = [] /\
  exists analyzers, require env (join env (str_of (settingsPath c))) = Some analyzers /\
                    str_of (analyzer c) ∈ analyzers.
Proof.
  rewrite transformer_getinstance_ok. unfold TransformerConfig.ValidateConfig, check.
  destruct (truthy (eshosts c)), (bad_string (settingsPath c)), (bad_string (analyzer c)),
    (bad_socket (socketLimit c)); simpl; split; intros H; intuition discriminate.
Qed.

(** X14: the loader's [GetInstance] succeeds exactly when its
    [ValidateConfig] reports nothing, both files load and the constructor
    accepts the remaining options; [ValidateConfig] itself never looks at
    [aliasName], [daysToKeep] or [minIndexesToKeep]. *)
Theorem loader_getinstance_accepts (env : FsEnv) (c : ConfigObj) :
  LoaderConfig.GetInstance env c = Ok tt <->
  LoaderConfig.ValidateConfig c = [] /\
  is_Some (require env (join env (str_of (mappingPath c)))) /\
  is_Some (require env (join env (str_of (settingsPath c)))) /\
  LoaderConfig.construct c = Ok tt.
Proof.
  rewrite loader_getinstance_ok. unfold LoaderConfig.ValidateConfig, check.
  destruct (bad_string (mappingPath c)), (bad_string (settingsPath c)), (truthy (eshosts c)),
    (bad_socket (socketLimit c)); simpl; split; intros H; intuition discriminate.
Qed.

(** X15: whenever either [GetInstance] succeeds, the client is built with
    a positive number as [maxSockets]: the given [socketLimit], or [80]
    when it is falsy. *)
Theorem max_sockets_positive (env : FsEnv) (c : ConfigObj) :
  TransformerConfig.GetInstance env c = Ok tt \/ LoaderConfig.GetInstance env c = Ok tt ->
  exists z, Client.maxSockets (socketLimit c) = JNum z /\ (0 < z)%Z /\
            (socketLimit c = JNum z \/ z = 80%Z).
Proof.
  intros Hok.
  assert (Hs : bad_socket (socketLimit c) = false).
  { destruct Hok as [H|H]; [apply transformer_getinstance_ok in H|apply loader_getinstance_ok in H];
      tauto. }
  unfold Client.maxSockets. unfold bad_socket in Hs.
  destruct (truthy (socketLimit c)) eqn:Et; simpl in Hs.
  - destruct (socketLimit c) as [| | |z| | | |]; simpl in *; try discriminate.
    exists z. apply Z.leb_gt in Hs. split; [reflexivity|]. split; [lia|left; reflexivity].
  - exists 80%Z. split; [reflexivity|]. split; [lia|right; reflexivity].
Qed.

End ConfigExtra.

(* ===================================================================== *)
(** ** A truthy cached count is final                                      *)
(* ===================================================================== *)

Module TokenizerExtra.

Import Tokenizer TokenizerProofs TokenizerFailure TokenizerInv.

Lemma cached_tc (st st' : TState) (k : string) :
  tokenCache st' = tokenCache st -> cached st' k = cached st k.
Proof. intros H. unfold cached. rewrite H. reflexivity. Qed.

Lemma entry_quiet (st : TState) (ts : list Task) (i : nat) (name : string)
    (t : Task) (st' : TState) (t' : Task) :
  cache_quiet (st, ts) -> ts !! i = Some t -> (forall k, awaits k t = 0) ->
  wrap_entry st name = (st', t') -> cache_quiet (st', <[i := t']> ts).
Proof.
  intros Hq Hi Ht Hw k. simpl in *.
  pose proof (tcount_insert (awaits k) ts i t t' Hi) as Hc. rewrite Ht in Hc.
  specialize (Hq k). unfold outstanding in *. simpl in Hq.
  unfold wrap_entry in Hw.
  destruct (cached st (toLowerCase name)) as [v|] eqn:Ec.
  - injection Hw as <- <-. simpl in Hc. intros Hk. specialize (Hq Hk). lia.
  - destruct (queued st (toLowerCase name)).
    + injection Hw as <- <-. simpl in Hc. intros Hk. specialize (Hq Hk). lia.
    + injection Hw as <- <-. simpl in Hc. rewrite key_is_eq in Hc.
      rewrite (cached_tc st) by reflexivity. intros Hk.
      destruct (decide (toLowerCase name = k)) as [<-|Hne]; [congruence|].
      specialize (Hq Hk). lia.
Qed.

Lemma resume_quiet (st : TState) (ts : list Task) (i : nat) (name : string)
    (r : Resp) (st' : TState) (t' : Task) :
  single_flight (st, ts) -> cache_quiet (st, ts) -> ts !! i = Some (TAwait name) ->
  wrap_resume st name r = (st', t') -> cache_quiet (st', <[i := t']> ts).
Proof.
  intros Hsf Hq Hi Hw k. simpl in *.
  pose proof (tcount_insert (awaits k) ts i _ t' Hi) as Hc.
  destruct (Hsf k) as [H1 _]. specialize (Hq k). unfold outstanding in *. simpl in *.
  rewrite key_is_eq in Hc.
  unfold wrap_resume in Hw. destruct r as [n|e].
  - injection Hw as <- <-. simpl in Hc.
    destruct (decide (toLowerCase name = k)) as [<-|Hne].
    + intros _. lia.
    + destruct st as [tc fq cl].
      rewrite (cached_insert_ne tc _ fq _ cl) by exact Hne. intros Hk. specialize (Hq Hk). lia.
  - injection Hw as <- <-. simpl in Hc. intros Hk. specialize (Hq Hk). lia.
Qed.

Lemma step_quiet (c c' : Config) :
  step c c' -> single_flight c -> cache_quiet c -> cache_quiet c'.
Proof.
  intros Hs Hsf Hq. destruct Hs.
  - intros k Hk. specialize (Hq k Hk). unfold outstanding in *. simpl in *.
    rewrite tcount_app. simpl. lia.
  - eapply entry_quiet; eauto.
  - eapply entry_quiet; eauto.
  - eapply resume_quiet; eauto.
Qed.

Lemma steps_quiet (c c' : Config) :
  steps c c' -> single_flight c -> cache_quiet c -> cache_quiet c'.
Proof.
  induction 1 as [c|c1 c2 c3 H12 H23 IH]; intros Hsf Hq; [exact Hq|].
  apply IH; [eapply step_single_flight; eauto|eapply step_quiet; eauto].
Qed.

Lemma step_keeps_count (k : string) (n : nat) (c c' : Config) :
  step c c' -> cached (fst c) k = Some n -> outstanding k (snd c) = 0 ->
  cached (fst c') k = Some n /\ outstanding k (snd c') = 0 /\
  calls_for k (fst c') = calls_for k (fst c).
Proof.
  intros Hs Hc Ho. destruct Hs as [st ts name|st ts i name st' t' Hi Hw|st ts i name st' t' Hi Hw
                                   |st ts i name r st' t' Hi Hw]; simpl in *.
  - unfold outstanding in *. rewrite tcount_app. simpl. repeat split; auto; lia.
  - pose proof (tcount_insert (awaits k) ts i _ t' Hi) as Hca. simpl in Hca.
    unfold outstanding in *. unfold wrap_entry in Hw.
    destruct (decide (toLowerCase name = k)) as [<-|Hne].
    + rewrite Hc in Hw. injection Hw as <- <-. simpl in Hca. repeat split; auto; lia.
    + destruct (cached st (toLowerCase name)).
      * injection Hw as <- <-. simpl in Hca. repeat split; auto; lia.
      * destruct (queued st (toLowerCase name)).
        -- injection Hw as <- <-. simpl in Hca. repeat split; auto; lia.
        -- injection Hw as <- <-. simpl in Hca. rewrite key_is_eq, decide_False in Hca by done.
           rewrite (cached_tc st) by reflexivity.
           repeat split; auto; try lia. unfold calls_for. simpl. apply calls_for_snoc_ne. exact Hne.
  - pose proof (tcount_insert (awaits k) ts i _ t' Hi) as Hca. simpl in Hca.
    unfold outstanding in *. unfold wrap_entry in Hw.
    destruct (decide (toLowerCase name = k)) as [<-|Hne].
    + rewrite Hc in Hw. injection Hw as <- <-. simpl in Hca. repeat split; auto; lia.
    + destruct (cached st (toLowerCase name)).
      * injection Hw as <- <-. simpl in Hca. repeat split; auto; lia.
      * destruct (queued st (toLowerCase name)).
        -- injection Hw as <- <-. simpl in Hca. repeat split; auto; lia.
        -- injection Hw as <- <-. simpl in Hca. rewrite key_is_eq, decide_False in Hca by done.
           rewrite (cached_tc st) by reflexivity.
           repeat split; auto; try lia. unfold calls_for. simpl. apply calls_for_snoc_ne. exact Hne.
  - pose proof (tcount_elem (awaits k) ts i _ Hi) as Hel. unfold outstanding in *.
    simpl in Hel. rewrite key_is_eq in Hel.
    destruct (decide (toLowerCase name = k)) as [_|Hne]; [lia|].
    pose proof (tcount_insert (awaits k) ts i _ t' Hi) as Hca. simpl in Hca.
    rewrite key_is_eq, decide_False in Hca by done.
    unfold wrap_resume in Hw. destruct r as [m|e].
    + injection Hw as <- <-. simpl in Hca. destruct st as [tc fq cl]. simpl in *.
      rewrite (cached_insert_ne tc _ fq _ cl) by exact Hne. repeat split; auto; lia.
    + injection Hw as <- <-. simpl in Hca. repeat split; auto; lia.
Qed.

Lemma steps_keep_count (k : string) (n : nat) (c c' : Config) :
  steps c c' -> cached (fst c) k = Some n -> outstanding k (snd c) = 0 ->
  cached (fst c') k = Some n /\ calls_for k (fst c') = calls_for k (fst c).
Proof.
  induction 1 as [c|c1 c2 c3 H12 H23 IH]; intros Hc Ho; [split; auto|].
  destruct (step_keeps_count k n _ _ H12 Hc Ho) as (Hc2 & Ho2 & Hcl2).
  destruct (IH Hc2 Ho2) as [Hc3 Hcl3]. split; congruence.
Qed.

(** X16: on a transformer that starts fresh, once a key holds a truthy
    (non-zero) count in [tokenCache], however the callers interleave the
    count never changes and no further analyze request for the key is
    issued. *)
Theorem nonzero_count_final (c c' : Config) (k : string) (n : nat) :
  steps (fresh, []) c -> cached (fst c) k = Some n -> steps c c' ->
  cached (fst c') k = Some n /\ calls_for k (fst c') = calls_for k (fst c).
Proof.
  intros H0 Hc Hs.
  assert (Hsf : single_flight (fresh, [])).
  { intros kk. unfold outstanding; simpl. split; [lia | intros _; reflexivity]. }
  assert (Hq : cache_quiet (fresh, [])).
  { intros kk _. reflexivity. }
  pose proof (steps_quiet _ _ H0 Hsf Hq k) as Ho.
  apply (steps_keep_count k n c c' Hs Hc). apply Ho. congruence.
Qed.

End TokenizerExtra.

(* ===================================================================== *)
(** ** Concrete instances of the properties above                          *)
(* ===================================================================== *)

Module ExtraInstances.

Import Transformer Loader Tokenizer TokenizerProofs Examples.
Import LoaderExtra ConfigExtra TokenizerExtra.

(** [loadRecord_writes] on a synonym record followed by the category
    record, the engine reporting a duplicate. *)
Lemma loadRecord_writes_witness :
  fst (loadRecord (writesAnswer ["35884_1"] []) "bestbets_v1_20181012"
                  [tobacco false None; tobacco true (Some "<p>Tobacco</p>")])
  = [IndexDocumentBulk "bestbets_v1_20181012" "synonyms"
       (docArr [tobacco false None; tobacco true (Some "<p>Tobacco</p>")]);
     IndexDocument "bestbets_v1_20181012" "categorydisplay" "35884"
       (mkDisplayDoc "35884" "Tobacco Control" None (Some "<p>Tobacco</p>"))].
Proof.
  apply (loadRecord_writes (writesAnswer ["35884_1"] []) "bestbets_v1_20181012"
           [tobacco false None] [] (tobacco true (Some "<p>Tobacco</p>"))).
  - repeat constructor.
  - reflexivity.
Defined.

(** [end()] of a new loader on an engine that accepts every call. *)
Lemma end_succeeds_witness :
  fst (end_ (fun _ => None) newLoader emptyEngine) = Ok tt /\
  aliases (snd (end_ (fun _ => None) newLoader emptyEngine)) !! "bestbets_v1"
    = Some "bestbets_v1_20181012" /\
  logs (snd (end_ (fun _ => None) newLoader emptyEngine)) = [].
Proof.
  rewrite (end_succeeds (fun _ => None) newLoader emptyEngine (fun _ => eq_refl)).
  split; [reflexivity|]. split; [apply lookup_insert_eq|reflexivity].
Defined.

(** [end()] of a new loader whose cleanup fails. *)
Lemma end_cleanup_failure_logs_witness :
  logs (snd (end_ cleanupFails newLoader emptyEngine))
  = ["Could not cleanup old indices"; "Errors occurred during end process"].
Proof.
  apply (end_cleanup_failure_logs cleanupFails newLoader emptyEngine "cleanup failed");
    reflexivity.
Defined.

(** The transformer built from [GOOD_STEP_CONFIG], which sets no
    [socketLimit]. *)
Lemma max_sockets_positive_witness :
  exists z, Client.maxSockets (socketLimit GOOD_STEP_CONFIG) = JNum z /\ (0 < z)%Z /\
            (socketLimit GOOD_STEP_CONFIG = JNum z \/ z = 80%Z).
Proof.
  apply (max_sockets_positive goodFs GOOD_STEP_CONFIG). left. reflexivity.
Defined.

(** ["The"] resolves to two tokens; later calls for ["THE"] and ["the"]
    are served from the cache. *)
Lemma nonzero_count_final_witness :
  exists c c', run (fresh, []) [ACall "The"; AStart 0; AResp 0 (ROk 2)] = Some c /\
    run c [ACall "THE"; AStart 1; ACall "the"; AStart 2] = Some c' /\
    cached (fst c') "the" = Some 2 /\ calls_for "the" (fst c') = calls_for "the" (fst c).
Proof.
  eexists. eexists. split; [vm_compute; reflexivity|]. split; [vm_compute; reflexivity|].
  apply nonzero_count_final.
  - apply (run_steps (fresh, []) _ [ACall "The"; AStart 0; AResp 0 (ROk 2)]).
    vm_compute. reflexivity.
  - vm_compute. reflexivity.
  - apply (run_steps _ _ [ACall "THE"; AStart 1; ACall "the"; AStart 2]).
    vm_compute. reflexivity.
Defined.

(** ["Test"] and ["TEST"] called together: one request in flight. *)
Lemma at_most_one_in_flight_witness :
  exists c, run (fresh, []) [ACall "Test"; ACall "TEST"; AStart 0; AStart 1] = Some c /\
    outstanding "test" (snd c) <= 1.
Proof.
  eexists. split; [vm_compute; reflexivity|].
  apply (at_most_one_in_flight _ "test").
  apply (run_steps (fresh, []) _ [ACall "Test"; ACall "TEST"; AStart 0; AStart 1]).
  vm_compute. reflexivity.
Defined.

End ExtraInstances.
